(** * The event queue and the typed waiters of the LE pairing handler

    A shallow embedding of [bluetooth::security::PairingHandlerLe], the
    class declared in [system/gd/security/pairing_handler_le.h]: the
    event queue with its producers, [WaitForEvent], the typed waiters
    built on it and the one-slot cache of an early PAIRING_CONFIRM. *)

From Stdlib Require Import List String NArith Bool Lia.
From Stdlib Require Import Strings.Byte.
Import ListNotations.
Local Open Scope list_scope.

(** ** Enumerations *)

(** [enum TYPE { EXIT, L2CAP, HCI_EVENT, UI }] of [PairingEvent]. *)
Inductive TYPE : Type := EXIT | L2CAP | HCI_EVENT | UI.

(** [enum UI_ACTION_TYPE { PAIRING_ACCEPTED, CONFIRM_YESNO, PASSKEY }]. *)
Inductive UI_ACTION_TYPE : Type := PAIRING_ACCEPTED | CONFIRM_YESNO | PASSKEY.

(** The SMP opcodes [Code::...]; the header names every one of them in a
    [CodeToPacketView] specialisation, in this order. *)
Inductive Code : Type :=
| PAIRING_REQUEST
| PAIRING_RESPONSE
| PAIRING_CONFIRM
| PAIRING_RANDOM
| PAIRING_FAILED
| ENCRYPTION_INFORMATION
| CENTRAL_IDENTIFICATION
| IDENTITY_INFORMATION
| IDENTITY_ADDRESS_INFORMATION
| SIGNING_INFORMATION
| SECURITY_REQUEST
| PAIRING_PUBLIC_KEY
| PAIRING_DH_KEY_CHECK
| PAIRING_KEYPRESS_NOTIFICATION.

(** [hci::EventCode]: the three enumerators the header names; every other
    event code of the controller is [OTHER_EVENT_CODE n]. *)
Inductive EventCode : Type :=
| ENCRYPTION_CHANGE
| ENCRYPTION_KEY_REFRESH_COMPLETE
| LE_META_EVENT
| OTHER_EVENT_CODE (n : N).

(** [hci::SubeventCode]: the enumerator the header names, and the rest. *)
Inductive SubeventCode : Type :=
| LONG_TERM_KEY_REQUEST
| OTHER_SUBEVENT_CODE (n : N).

(** [std::cv_status], the result of [condition_variable::wait_for]. *)
Inductive cv_status : Type := no_timeout | timeout.

Definition UI_ACTION_TYPE_eq_dec (a b : UI_ACTION_TYPE) : {a = b} + {a <> b}.
Proof. decide equality. Defined.

Definition Code_eq_dec (a b : Code) : {a = b} + {a <> b}.
Proof. decide equality. Defined.

Definition EventCode_eq_dec (a b : EventCode) : {a = b} + {a <> b}.
Proof. decide equality; apply N.eq_dec. Defined.

Definition SubeventCode_eq_dec (a b : SubeventCode) : {a = b} + {a <> b}.
Proof. decide equality; apply N.eq_dec. Defined.

(** [a == b] on the enumerations. *)
Definition UI_ACTION_TYPE_eqb (a b : UI_ACTION_TYPE) : bool :=
  if UI_ACTION_TYPE_eq_dec a b then true else false.
Definition Code_eqb (a b : Code) : bool :=
  if Code_eq_dec a b then true else false.
Definition EventCode_eqb (a b : EventCode) : bool :=
  if EventCode_eq_dec a b then true else false.
Definition SubeventCode_eqb (a b : SubeventCode) : bool :=
  if SubeventCode_eq_dec a b then true else false.

(** [constexpr int SMP_TIMEOUT = 30;], in seconds. *)
Definition SMP_TIMEOUT : N := 30.

(** ** Bit masks

    The [constexpr uint8_t] masks of the AuthReq field and of the key
    distribution fields. *)
Definition AuthReqMaskBondingFlag : N := 0x01.
Definition AuthReqMaskMitm : N := 0x04.
Definition AuthReqMaskSc : N := 0x08.
Definition AuthReqMaskKeypress : N := 0x10.
Definition AuthReqMaskCt2 : N := 0x20.

Definition KeyMaskEnc : N := 0x01.
Definition KeyMaskId : N := 0x02.
Definition KeyMaskSign : N := 0x04.
Definition KeyMaskLink : N := 0x08.

Definition AuthReqMasks : list N :=
  [AuthReqMaskBondingFlag; AuthReqMaskMitm; AuthReqMaskSc;
   AuthReqMaskKeypress; AuthReqMaskCt2].

Definition KeyMasks : list N := [KeyMaskEnc; KeyMaskId; KeyMaskSign; KeyMaskLink].

(** ** The packet layer

    [CommandView] and its children come from [security/smp_packets.h],
    [hci::EventView] and its children from [hci/hci_packets.h]; both are
    generated and are not part of the header.  The handler uses them only
    through the operations below, so the development is parametric in
    them.  A child view is created from its parent without a check
    ([Create]); [IsValid] on the child tells whether the bytes parse. *)
Class PacketLayer : Type := {
  (** [CommandView], an SMP PDU received on L2CAP *)
  CommandView : Type;
  (** [CommandView::IsValid] *)
  CommandView_IsValid : CommandView -> bool;
  (** [CommandView::GetCode] *)
  GetCode : CommandView -> Code;
  (** [CodeText] *)
  CodeText : Code -> string;
  (** [CodeToPacketView<C>::type::Create(p).IsValid()] *)
  View_IsValid : Code -> CommandView -> bool;
  (** [PairingFailedReason], the reason code of a PAIRING_FAILED PDU *)
  PairingFailedReason : Type;
  (** [PairingFailedView::Create(p).GetReason()] *)
  GetReason : CommandView -> PairingFailedReason;
  (** [hci::EventView] *)
  EventView : Type;
  (** [EventView::IsValid] *)
  EventView_IsValid : EventView -> bool;
  (** [EventView::GetEventCode] *)
  GetEventCode : EventView -> EventCode;
  (** [EncryptionChangeView::Create(ev).IsValid()] *)
  EncryptionChangeView_IsValid : EventView -> bool;
  (** [EncryptionKeyRefreshCompleteView::Create(ev).IsValid()] *)
  EncryptionKeyRefreshCompleteView_IsValid : EventView -> bool;
  (** [LeMetaEventView::Create(ev).IsValid()] *)
  LeMetaEventView_IsValid : EventView -> bool;
  (** [LeMetaEventView::GetSubeventCode] *)
  GetSubeventCode : EventView -> SubeventCode;
  (** [LeLongTermKeyRequestView::Create(le).IsValid()] *)
  LeLongTermKeyRequestView_IsValid : EventView -> bool
}.

Section Handler.

Context {PL : PacketLayer}.

(** [CodeToPacketView<C>::type]: the view of opcode [C] over an L2CAP
    packet, as [Create] returns it. *)
Record CodeToPacketView (C : Code) : Type := Create { l2cap_of : CommandView }.

Arguments Create C l2cap_of : clear implicits.
Arguments l2cap_of {C} _.

Definition IsValid {C : Code} (pkt : CodeToPacketView C) : bool :=
  View_IsValid C (l2cap_of pkt).

Definition PairingConfirmView : Type := CodeToPacketView PAIRING_CONFIRM.

(** The children of [hci::EventView] the handler returns. *)
Record EncryptionChangeView : Type :=
  EncryptionChangeView_Create { enc_chg_event : EventView }.
Record EncryptionKeyRefreshCompleteView : Type :=
  EncryptionKeyRefreshCompleteView_Create { enc_refresh_event : EventView }.
Record LeMetaEventView : Type :=
  LeMetaEventView_Create { le_event_of : EventView }.
Record LeLongTermKeyRequestView : Type :=
  LeLongTermKeyRequestView_Create { ltk_req_le_event : LeMetaEventView }.

(** ** Events

    [class PairingEvent] is a tag [type] with the fields of the tagged
    case; its four constructors are the four ways the header builds one:
    [PairingEvent(EXIT)], [PairingEvent(CommandView)],
    [PairingEvent(UI_ACTION_TYPE, uint32_t)] and
    [PairingEvent(hci::EventView)]. *)
Inductive PairingEvent : Type :=
| PairingEvent_EXIT
| PairingEvent_L2CAP (l2cap_packet : CommandView)
| PairingEvent_UI (ui_action : UI_ACTION_TYPE) (ui_value : N)
| PairingEvent_HCI (hci_event : EventView).

Definition type (e : PairingEvent) : TYPE :=
  match e with
  | PairingEvent_EXIT => EXIT
  | PairingEvent_L2CAP _ => L2CAP
  | PairingEvent_UI _ _ => UI
  | PairingEvent_HCI _ => HCI_EVENT
  end.

(** [e.type == PairingEvent::UI && e.ui_action == a] *)
Definition is_ui_action (e : PairingEvent) (a : UI_ACTION_TYPE) : bool :=
  match e with
  | PairingEvent_UI ui_action _ => UI_ACTION_TYPE_eqb ui_action a
  | _ => false
  end.

(** ** Failures *)

(** Modelled from the spec: [PairingFailure] is declared in
    [security/pairing_failure.h], which is not part of the header; the
    spec describes it as a textual reason with an optional SMP reason
    code.  The three constructors are the three ways the header builds
    one: from a message, from a message and the opcode received, from a
    message and the reason of a PAIRING_FAILED PDU. *)
Inductive PairingFailure : Type :=
| PairingFailure_message (message : string)
| PairingFailure_received (message : string) (received_code : Code)
| PairingFailure_reason (message : string) (reason : PairingFailedReason).

(** The SMP reason code a failure carries, if any. *)
Definition reason_of (f : PairingFailure) : option PairingFailedReason :=
  match f with
  | PairingFailure_reason _ reason => Some reason
  | _ => None
  end.

(** ** The handler and the environment of its worker thread

    [queue] and [cached_pariring_confirm_view] are the members of the
    class.  A [std::unique_ptr] is empty or owns one object: an [option].

    The worker blocks in [wait_for] with the queue mutex released; what
    the rest of the process does meanwhile is recorded as a [Wakeup]: how
    the wait ends ([status]), after how many seconds ([slept]), and the
    events the producers pushed before the worker holds the mutex again
    ([pushed]).  A wake-up that is [no_timeout] with nothing pushed is a
    spurious one.  [wakeups] lists the wake-ups to come, [blocked] is the
    number of seconds the worker has spent blocked so far. *)
Record Wakeup : Type := {
  status : cv_status;
  slept : N;
  pushed : list PairingEvent
}.

Record PairingHandlerLe : Type := {
  queue : list PairingEvent;
  cached_pariring_confirm_view : option PairingConfirmView;
  wakeups : list Wakeup;
  blocked : N
}.

(** Code of the worker thread: a function of the handler. *)
Definition M (A : Type) : Type := PairingHandlerLe -> A * PairingHandlerLe.

Definition ret {A : Type} (a : A) : M A := fun h => (a, h).

Definition bind {A B : Type} (m : M A) (k : A -> M B) : M B :=
  fun h => let (a, h') := m h in k a h'.

Notation "x <- m ;; k" := (bind m (fun x => k))
  (at level 61, m at next level, right associativity).

(** [queue.push(e)] *)
Definition push (e : PairingEvent) (h : PairingHandlerLe) : PairingHandlerLe :=
  {| queue := queue h ++ [e];
     cached_pariring_confirm_view := cached_pariring_confirm_view h;
     wakeups := wakeups h;
     blocked := blocked h |}.

(** Assignment to [cached_pariring_confirm_view]. *)
Definition set_cached (c : option PairingConfirmView) : M unit :=
  fun h => (tt, {| queue := queue h;
                   cached_pariring_confirm_view := c;
                   wakeups := wakeups h;
                   blocked := blocked h |}).

(** ** Producers: called from any thread, each pushes one event *)

Definition SendExitSignal (h : PairingHandlerLe) : PairingHandlerLe :=
  push PairingEvent_EXIT h.

Definition OnCommandView (packet : CommandView) (h : PairingHandlerLe)
  : PairingHandlerLe :=
  push (PairingEvent_L2CAP packet) h.

Definition OnHciEvent (hci_event : EventView) (h : PairingHandlerLe)
  : PairingHandlerLe :=
  push (PairingEvent_HCI hci_event) h.

Definition OnUiAction (ui_action : UI_ACTION_TYPE) (ui_value : N)
  (h : PairingHandlerLe) : PairingHandlerLe :=
  push (PairingEvent_UI ui_action ui_value) h.

(** The [LeMetaEventView] converts to the [hci::EventView] it is a view of. *)
Definition OnHciLeEvent (hci_event : LeMetaEventView) (h : PairingHandlerLe)
  : PairingHandlerLe :=
  push (PairingEvent_HCI (le_event_of hci_event)) h.

(** ** WaitForEvent *)

(** [pairing_thread_blocker_.wait_for(lock, rel_time)]: the status the
    wake-up gives and the seconds spent in the wait, never more than
    [rel_time]. *)
Definition wait_for (rel_time : N) (w : Wakeup) : cv_status * N :=
  match status w with
  | timeout => (timeout, rel_time)
  | no_timeout => (no_timeout, N.min (slept w) rel_time)
  end.

(** The wake-up of a process in which nothing else happens. *)
Definition silence : Wakeup :=
  {| status := timeout; slept := SMP_TIMEOUT; pushed := [] |}.

(** The [do ... while (true)] loop of [WaitForEvent], with the queue [q],
    the cache [c], the wake-ups to come [ws] and the time blocked [t].
    When [ws] is used up the process is silent and the wait times out. *)
Fixpoint WaitForEvent_loop (ws : list Wakeup) (q : list PairingEvent)
  (c : option PairingConfirmView) (t : N) {struct ws}
  : PairingEvent * PairingHandlerLe :=
  match q with
  | e :: q' =>
      (e, {| queue := q'; cached_pariring_confirm_view := c;
             wakeups := ws; blocked := t |})
  | [] =>
      match ws with
      | [] =>
          (PairingEvent_EXIT,
           {| queue := []; cached_pariring_confirm_view := c;
              wakeups := [];
              blocked := t + snd (wait_for SMP_TIMEOUT silence) |})
      | w :: ws' =>
          match wait_for SMP_TIMEOUT w with
          | (timeout, dt) =>
              (PairingEvent_EXIT,
               {| queue := pushed w; cached_pariring_confirm_view := c;
                  wakeups := ws'; blocked := t + dt |})
          | (no_timeout, dt) => WaitForEvent_loop ws' (pushed w) c (t + dt)
          end
      end
  end.

Definition WaitForEvent : M PairingEvent :=
  fun h => WaitForEvent_loop (wakeups h) (queue h)
             (cached_pariring_confirm_view h) (blocked h).

(** ** The UI waiters *)

(** The [if (e.type == UI && e.ui_action == a) return e; else return
    std::nullopt;] that ends each UI waiter. *)
Definition ui_event_or_nullopt (a : UI_ACTION_TYPE) (e : PairingEvent)
  : option PairingEvent :=
  if is_ui_action e a then Some e else None.

Definition WaitUiPairingAccept : M (option PairingEvent) :=
  e <- WaitForEvent ;;
  ret (ui_event_or_nullopt PAIRING_ACCEPTED e).

Definition WaitUiConfirmYesNo : M (option PairingEvent) :=
  e <- WaitForEvent ;;
  ret (ui_event_or_nullopt CONFIRM_YESNO e).

Definition WaitUiPasskey : M (option PairingEvent) :=
  e <- WaitForEvent ;;
  match e with
  | PairingEvent_L2CAP l2cap_packet =>
      if negb (CommandView_IsValid l2cap_packet) then ret None
      else
        let received_code := GetCode l2cap_packet in
        if negb (Code_eqb received_code PAIRING_CONFIRM) then ret None
        else
          let pkt := Create PAIRING_CONFIRM l2cap_packet in
          if negb (IsValid pkt) then ret None
          else
            _ <- set_cached (Some pkt) ;;
            e <- WaitForEvent ;;
            ret (ui_event_or_nullopt PASSKEY e)
  | _ => ret (ui_event_or_nullopt PASSKEY e)
  end.

(** ** The packet waiters *)

Definition WaitPacket (CODE : Code) : M (CodeToPacketView CODE + PairingFailure) :=
  e <- WaitForEvent ;;
  match e with
  | PairingEvent_EXIT =>
      ret (inr (PairingFailure_message
        ("Was expecting L2CAP Packet " ++ CodeText CODE
           ++ ", but received EXIT instead")%string))
  | PairingEvent_HCI _ =>
      ret (inr (PairingFailure_message
        ("Was expecting L2CAP Packet " ++ CodeText CODE
           ++ ", but received HCI_EVENT instead")%string))
  | PairingEvent_UI _ _ =>
      ret (inr (PairingFailure_message
        ("Was expecting L2CAP Packet " ++ CodeText CODE
           ++ ", but received UI instead")%string))
  | PairingEvent_L2CAP l2cap_packet =>
      if negb (CommandView_IsValid l2cap_packet)
      then ret (inr (PairingFailure_message "Malformed L2CAP packet received!"))
      else
        let received_code := GetCode l2cap_packet in
        if negb (Code_eqb received_code CODE) then
          if Code_eqb received_code PAIRING_FAILED then
            let pkt := Create PAIRING_FAILED l2cap_packet in
            if negb (IsValid pkt)
            then ret (inr (PairingFailure_message
                   ("Malformed " ++ CodeText CODE ++ " packet")%string))
            else ret (inr (PairingFailure_reason
                   ("Was expecting " ++ CodeText CODE
                      ++ ", but received PAIRING_FAILED instead")%string
                   (GetReason l2cap_packet)))
          else ret (inr (PairingFailure_received
                 ("Was expecting " ++ CodeText CODE ++ ", but received "
                    ++ CodeText received_code ++ " instead")%string
                 received_code))
        else
          let pkt := Create CODE l2cap_packet in
          if negb (IsValid pkt)
          then ret (inr (PairingFailure_message
                 ("Malformed " ++ CodeText CODE ++ " packet")%string))
          else ret (inl pkt)
  end.

Definition WaitPairingRequest := WaitPacket PAIRING_REQUEST.
Definition WaitPairingResponse := WaitPacket PAIRING_RESPONSE.

(** [release()] leaves the pointer null. *)
Definition WaitPairingConfirm : M (PairingConfirmView + PairingFailure) :=
  fun h =>
    match cached_pariring_confirm_view h with
    | Some pkt => (_ <- set_cached None ;; ret (inl pkt)) h
    | None => WaitPacket PAIRING_CONFIRM h
    end.

Definition WaitPairingRandom := WaitPacket PAIRING_RANDOM.
Definition WaitPairingPublicKey := WaitPacket PAIRING_PUBLIC_KEY.
Definition WaitPairingDHKeyCheck := WaitPacket PAIRING_DH_KEY_CHECK.
Definition WaitEncryptionInformationRequest := WaitPacket ENCRYPTION_INFORMATION.
Definition WaitEncryptionInformation := WaitPacket ENCRYPTION_INFORMATION.
Definition WaitCentralIdentification := WaitPacket CENTRAL_IDENTIFICATION.
Definition WaitIdentityInformation := WaitPacket IDENTITY_INFORMATION.
Definition WaitIdentityAddressInformation := WaitPacket IDENTITY_ADDRESS_INFORMATION.
Definition WaitSigningInformation := WaitPacket SIGNING_INFORMATION.

(** ** The HCI waiters *)

(** [std::variant<PairingFailure, EncryptionChangeView,
    EncryptionKeyRefreshCompleteView>] *)
Inductive EncryptionChangedResult : Type :=
| EncryptionChanged_failure (f : PairingFailure)
| EncryptionChanged_change (enc_chg_packet : EncryptionChangeView)
| EncryptionChanged_refresh (enc_packet : EncryptionKeyRefreshCompleteView).

Definition WaitEncryptionChanged : M EncryptionChangedResult :=
  e <- WaitForEvent ;;
  match e with
  | PairingEvent_HCI hci_event =>
      if negb (EventView_IsValid hci_event)
      then ret (EncryptionChanged_failure
             (PairingFailure_message "Received invalid HCI event"))
      else if EventCode_eqb (GetEventCode hci_event) ENCRYPTION_CHANGE then
        if negb (EncryptionChangeView_IsValid hci_event)
        then ret (EncryptionChanged_failure
               (PairingFailure_message "Invalid Encryption Change packet received"))
        else ret (EncryptionChanged_change (EncryptionChangeView_Create hci_event))
      else if EventCode_eqb (GetEventCode hci_event) ENCRYPTION_KEY_REFRESH_COMPLETE then
        if negb (EncryptionKeyRefreshCompleteView_IsValid hci_event)
        then ret (EncryptionChanged_failure
               (PairingFailure_message "Invalid Key Refresh packet received"))
        else ret (EncryptionChanged_refresh
               (EncryptionKeyRefreshCompleteView_Create hci_event))
      else ret (EncryptionChanged_failure (PairingFailure_message
             "Was expecting Encryption Change or Key Refresh Complete but received something else"))
  | _ =>
      ret (EncryptionChanged_failure (PairingFailure_message
        "Was expecting HCI event but received something else"))
  end.

Definition WaitLeLongTermKeyRequest : M (PairingFailure + LeLongTermKeyRequestView) :=
  e <- WaitForEvent ;;
  match e with
  | PairingEvent_HCI hci_event =>
      if negb (EventView_IsValid hci_event)
      then ret (inl (PairingFailure_message "Received invalid HCI event"))
      else if negb (EventCode_eqb (GetEventCode hci_event) LE_META_EVENT)
      then ret (inl (PairingFailure_message "Was expecting LE event"))
      else
        let le_event := LeMetaEventView_Create hci_event in
        if negb (LeMetaEventView_IsValid hci_event)
        then ret (inl (PairingFailure_message "Invalid LE Event received"))
        else if negb (SubeventCode_eqb (GetSubeventCode hci_event) LONG_TERM_KEY_REQUEST)
        then ret (inl (PairingFailure_message "Was expecting Long Term Key Request"))
        else
          let ltk_req_packet := LeLongTermKeyRequestView_Create le_event in
          if negb (LeLongTermKeyRequestView_IsValid hci_event)
          then ret (inl (PairingFailure_message
                 "Invalid LE Long Term Key Request received"))
          else ret (inr ltk_req_packet)
  | _ =>
      ret (inl (PairingFailure_message
        "Was expecting HCI event but received something else"))
  end.

(** ** Calls of the typed waiters, as data

    The typed waiters have different result types; [Wait] names a waiter
    and [WaitResult] is what any of them can return, so that the worker
    and statements about all waiters can be written once. *)
Inductive Wait : Type :=
| Wait_Packet (CODE : Code)
| Wait_PairingConfirm
| Wait_UiPairingAccept
| Wait_UiConfirmYesNo
| Wait_UiPasskey
| Wait_EncryptionChanged
| Wait_LeLongTermKeyRequest.

Inductive WaitResult : Type :=
| Result_packet (CODE : Code) (pkt : CodeToPacketView CODE)
| Result_ui (e : PairingEvent)
| Result_encryption_change (enc_chg_packet : EncryptionChangeView)
| Result_key_refresh (enc_packet : EncryptionKeyRefreshCompleteView)
| Result_ltk_request (ltk_req_packet : LeLongTermKeyRequestView)
| Result_PairingFailure (f : PairingFailure)
| Result_nullopt.

Definition of_packet {CODE : Code} (r : CodeToPacketView CODE + PairingFailure)
  : WaitResult :=
  match r with
  | inl pkt => Result_packet CODE pkt
  | inr f => Result_PairingFailure f
  end.

Definition of_ui (r : option PairingEvent) : WaitResult :=
  match r with
  | Some e => Result_ui e
  | None => Result_nullopt
  end.

Definition of_encryption_changed (r : EncryptionChangedResult) : WaitResult :=
  match r with
  | EncryptionChanged_failure f => Result_PairingFailure f
  | EncryptionChanged_change v => Result_encryption_change v
  | EncryptionChanged_refresh v => Result_key_refresh v
  end.

Definition of_ltk_request (r : PairingFailure + LeLongTermKeyRequestView)
  : WaitResult :=
  match r with
  | inl f => Result_PairingFailure f
  | inr v => Result_ltk_request v
  end.

Definition call (w : Wait) : M WaitResult :=
  match w with
  | Wait_Packet CODE => r <- WaitPacket CODE ;; ret (of_packet r)
  | Wait_PairingConfirm => r <- WaitPairingConfirm ;; ret (of_packet r)
  | Wait_UiPairingAccept => r <- WaitUiPairingAccept ;; ret (of_ui r)
  | Wait_UiConfirmYesNo => r <- WaitUiConfirmYesNo ;; ret (of_ui r)
  | Wait_UiPasskey => r <- WaitUiPasskey ;; ret (of_ui r)
  | Wait_EncryptionChanged =>
      r <- WaitEncryptionChanged ;; ret (of_encryption_changed r)
  | Wait_LeLongTermKeyRequest =>
      r <- WaitLeLongTermKeyRequest ;; ret (of_ltk_request r)
  end.

(** A waiter failed: it returned a [PairingFailure], or [std::nullopt]. *)
Definition is_failure (r : WaitResult) : bool :=
  match r with
  | Result_PairingFailure _ | Result_nullopt => true
  | _ => false
  end.

(** A valid PAIRING_CONFIRM PDU: the three checks of [WaitUiPasskey]. *)
Definition valid_pairing_confirm (l2cap_packet : CommandView) : bool :=
  CommandView_IsValid l2cap_packet
  && Code_eqb (GetCode l2cap_packet) PAIRING_CONFIRM
  && View_IsValid PAIRING_CONFIRM l2cap_packet.

(** The events a waiter is waiting for.  [Wait_PairingConfirm] is
    [Wait_Packet PAIRING_CONFIRM] once the cache is empty. *)
Definition expects (w : Wait) (e : PairingEvent) : bool :=
  match w, e with
  | Wait_Packet CODE, PairingEvent_L2CAP p =>
      CommandView_IsValid p && Code_eqb (GetCode p) CODE && View_IsValid CODE p
  | Wait_PairingConfirm, PairingEvent_L2CAP p => valid_pairing_confirm p
  | Wait_UiPairingAccept, PairingEvent_UI a _ => UI_ACTION_TYPE_eqb a PAIRING_ACCEPTED
  | Wait_UiConfirmYesNo, PairingEvent_UI a _ => UI_ACTION_TYPE_eqb a CONFIRM_YESNO
  | Wait_UiPasskey, PairingEvent_UI a _ => UI_ACTION_TYPE_eqb a PASSKEY
  | Wait_EncryptionChanged, PairingEvent_HCI ev =>
      EventView_IsValid ev
      && ((EventCode_eqb (GetEventCode ev) ENCRYPTION_CHANGE
           && EncryptionChangeView_IsValid ev)
          || (EventCode_eqb (GetEventCode ev) ENCRYPTION_KEY_REFRESH_COMPLETE
              && EncryptionKeyRefreshCompleteView_IsValid ev))
  | Wait_LeLongTermKeyRequest, PairingEvent_HCI ev =>
      EventView_IsValid ev
      && EventCode_eqb (GetEventCode ev) LE_META_EVENT
      && LeMetaEventView_IsValid ev
      && SubeventCode_eqb (GetSubeventCode ev) LONG_TERM_KEY_REQUEST
      && LeLongTermKeyRequestView_IsValid ev
  | _, _ => false
  end.

(** ** Calls of the producers, as data *)
Inductive Producer : Type :=
| Call_SendExitSignal
| Call_OnCommandView (packet : CommandView)
| Call_OnHciEvent (hci_event : EventView)
| Call_OnUiAction (ui_action : UI_ACTION_TYPE) (ui_value : N)
| Call_OnHciLeEvent (hci_event : LeMetaEventView).

Definition produce (p : Producer) : PairingHandlerLe -> PairingHandlerLe :=
  match p with
  | Call_SendExitSignal => SendExitSignal
  | Call_OnCommandView packet => OnCommandView packet
  | Call_OnHciEvent hci_event => OnHciEvent hci_event
  | Call_OnUiAction ui_action ui_value => OnUiAction ui_action ui_value
  | Call_OnHciLeEvent hci_event => OnHciLeEvent hci_event
  end.

(** The producers called one after the other. *)
Definition produce_all (ps : list Producer) (h : PairingHandlerLe)
  : PairingHandlerLe :=
  fold_left (fun h p => produce p h) ps h.

(** The event a producer builds from its arguments. *)
Definition event_of (p : Producer) : PairingEvent :=
  match p with
  | Call_SendExitSignal => PairingEvent_EXIT
  | Call_OnCommandView packet => PairingEvent_L2CAP packet
  | Call_OnHciEvent hci_event => PairingEvent_HCI hci_event
  | Call_OnUiAction ui_action ui_value => PairingEvent_UI ui_action ui_value
  | Call_OnHciLeEvent hci_event => PairingEvent_HCI (le_event_of hci_event)
  end.

(** [n] successive calls of [WaitForEvent], and what they return. *)
Fixpoint WaitForEvents (n : nat) : M (list PairingEvent) :=
  match n with
  | O => ret []
  | S n' =>
      e <- WaitForEvent ;;
      es <- WaitForEvents n' ;;
      ret (e :: es)
  end.

(** ** The worker *)

(** Modelled from the spec: [PairingMain] is defined in
    [pairing_handler_le.cc], which is not part of the header.  The spec
    has the worker run the phases in order, suspending only in the typed
    waiters, and recover nothing: the first wait that fails ends the
    worker.  A [Worker] is such a program: it has finished with a result,
    or it calls a waiter and goes on from what the waiter returned. *)
Inductive Worker (R : Type) : Type :=
| Finished (result : R)
| Await (w : Wait) (next : WaitResult -> Worker R).

(** How a session ends: with the result of the worker, or at the waiter
    that failed. *)
Inductive Outcome (R : Type) : Type :=
| Completed (result : R)
| Aborted (w : Wait) (failure : WaitResult).

Fixpoint PairingMain {R : Type} (prog : Worker R) (h : PairingHandlerLe)
  : Outcome R * PairingHandlerLe :=
  match prog with
  | Finished _ result => (Completed R result, h)
  | Await _ w next =>
      let (r, h') := call w h in
      if is_failure r then (Aborted R w r, h')
      else PairingMain (next r) h'
  end.

(** ** Operations on a handler, as data *)
Inductive Operation : Type :=
| Op_produce (p : Producer)
| Op_WaitForEvent
| Op_call (w : Wait).

Definition exec (op : Operation) (h : PairingHandlerLe) : PairingHandlerLe :=
  match op with
  | Op_produce p => produce p h
  | Op_WaitForEvent => snd (WaitForEvent h)
  | Op_call w => snd (call w h)
  end.

Definition exec_all (ops : list Operation) (h : PairingHandlerLe)
  : PairingHandlerLe :=
  fold_left (fun h op => exec op h) ops h.

(** The two functions of the header that name the cache. *)
Definition names_cache (op : Operation) : bool :=
  match op with
  | Op_call Wait_UiPasskey | Op_call Wait_PairingConfirm => true
  | _ => false
  end.

(** What the cache holds, as a list. *)
Definition held (h : PairingHandlerLe) : list PairingConfirmView :=
  match cached_pariring_confirm_view h with
  | Some pkt => [pkt]
  | None => []
  end.

(** A wake-up without a timeout that finds nothing pushed. *)
Definition spurious (w : Wakeup) : bool :=
  match status w, pushed w with
  | no_timeout, [] => true
  | _, _ => false
  end.

(** [e.type == PairingEvent::EXIT] *)
Definition is_exit (e : PairingEvent) : bool :=
  match e with
  | PairingEvent_EXIT => true
  | _ => false
  end.

(** The events enqueued and not returned yet: those in the queue, then
    those the producers push during the waits to come. *)
Definition pending (h : PairingHandlerLe) : list PairingEvent :=
  queue h ++ List.concat (map pushed (wakeups h)).

(** The wait of a call that finds the queue empty times out: after the
    spurious wake-ups the condition variable reports a timeout, or
    nothing happens any more. *)
Fixpoint wait_times_out (ws : list Wakeup) : bool :=
  match ws with
  | [] => true
  | w :: ws' =>
      match status w, pushed w with
      | timeout, _ => true
      | no_timeout, [] => wait_times_out ws'
      | no_timeout, _ :: _ => false
      end
  end.

(** The next call of [WaitForEvent] times out. *)
Definition times_out (h : PairingHandlerLe) : bool :=
  match queue h with
  | [] => wait_times_out (wakeups h)
  | _ :: _ => false
  end.

(** Which of the next [n] calls of [WaitForEvent] time out. *)
Fixpoint timed_out_calls (n : nat) (h : PairingHandlerLe) : list bool :=
  match n with
  | O => []
  | S n' => times_out h :: timed_out_calls n' (snd (WaitForEvent h))
  end.

(** The events in order, one for each call that does not time out, and an
    EXIT for each call that does. *)
Fixpoint deliver (calls : list bool) (events : list PairingEvent)
  : list PairingEvent :=
  match calls with
  | [] => []
  | true :: calls' => PairingEvent_EXIT :: deliver calls' events
  | false :: calls' =>
      match events with
      | e :: events' => e :: deliver calls' events'
      | [] => []
      end
  end.

End Handler.

Arguments Create {PL} C l2cap_of.
Arguments l2cap_of {PL C} _.
Arguments Finished {PL R} result.
Arguments Await {PL R} w next.
Arguments Completed {PL R} result.
Arguments Aborted {PL R} w failure.

Notation "x <- m ;; k" := (bind m (fun x => k))
  (at level 61, m at next level, right associativity).

(** ** A packet layer on which the handler runs *)

Module Wire.

(** Modelled from the spec: the SMP wire format.  A PDU is its opcode
    byte followed by the body; the opcodes and the body sizes are those
    of the table of the spec, and the codec validates opcode and length
    strictly. *)
Definition Code_of_byte (b : byte) : option Code :=
  match b with
  | x01 => Some PAIRING_REQUEST
  | x02 => Some PAIRING_RESPONSE
  | x03 => Some PAIRING_CONFIRM
  | x04 => Some PAIRING_RANDOM
  | x05 => Some PAIRING_FAILED
  | x06 => Some ENCRYPTION_INFORMATION
  | x07 => Some CENTRAL_IDENTIFICATION
  | x08 => Some IDENTITY_INFORMATION
  | x09 => Some IDENTITY_ADDRESS_INFORMATION
  | x0a => Some SIGNING_INFORMATION
  | x0b => Some SECURITY_REQUEST
  | x0c => Some PAIRING_PUBLIC_KEY
  | x0d => Some PAIRING_DH_KEY_CHECK
  | x0e => Some PAIRING_KEYPRESS_NOTIFICATION
  | _ => None
  end.

Definition body_size (c : Code) : nat :=
  match c with
  | PAIRING_REQUEST => 6
  | PAIRING_RESPONSE => 6
  | PAIRING_CONFIRM => 16
  | PAIRING_RANDOM => 16
  | PAIRING_FAILED => 1
  | ENCRYPTION_INFORMATION => 16
  | CENTRAL_IDENTIFICATION => 10
  | IDENTITY_INFORMATION => 16
  | IDENTITY_ADDRESS_INFORMATION => 7
  | SIGNING_INFORMATION => 16
  | SECURITY_REQUEST => 1
  | PAIRING_PUBLIC_KEY => 64
  | PAIRING_DH_KEY_CHECK => 16
  | PAIRING_KEYPRESS_NOTIFICATION => 1
  end.

Definition Pdu : Type := list byte.

Definition Pdu_code (p : Pdu) : option Code :=
  match p with
  | b :: _ => Code_of_byte b
  | [] => None
  end.

Definition Pdu_IsValid (p : Pdu) : bool :=
  match Pdu_code p with
  | Some _ => true
  | None => false
  end.

(** Read by the handler on a valid PDU only. *)
Definition Pdu_GetCode (p : Pdu) : Code :=
  match Pdu_code p with
  | Some c => c
  | None => PAIRING_REQUEST
  end.

Definition Pdu_View_IsValid (c : Code) (p : Pdu) : bool :=
  match Pdu_code p with
  | Some c' => Code_eqb c' c && Nat.eqb (List.length (tl p)) (body_size c)
  | None => false
  end.

(** The reason byte of a PAIRING_FAILED PDU, as it is on the wire. *)
Definition Pdu_GetReason (p : Pdu) : byte := nth 1 p x00.

Definition Pdu_CodeText (c : Code) : string :=
  match c with
  | PAIRING_REQUEST => "PAIRING_REQUEST"
  | PAIRING_RESPONSE => "PAIRING_RESPONSE"
  | PAIRING_CONFIRM => "PAIRING_CONFIRM"
  | PAIRING_RANDOM => "PAIRING_RANDOM"
  | PAIRING_FAILED => "PAIRING_FAILED"
  | ENCRYPTION_INFORMATION => "ENCRYPTION_INFORMATION"
  | CENTRAL_IDENTIFICATION => "CENTRAL_IDENTIFICATION"
  | IDENTITY_INFORMATION => "IDENTITY_INFORMATION"
  | IDENTITY_ADDRESS_INFORMATION => "IDENTITY_ADDRESS_INFORMATION"
  | SIGNING_INFORMATION => "SIGNING_INFORMATION"
  | SECURITY_REQUEST => "SECURITY_REQUEST"
  | PAIRING_PUBLIC_KEY => "PAIRING_PUBLIC_KEY"
  | PAIRING_DH_KEY_CHECK => "PAIRING_DH_KEY_CHECK"
  | PAIRING_KEYPRESS_NOTIFICATION => "PAIRING_KEYPRESS_NOTIFICATION"
  end.

(** An HCI event as the controller layer has decoded it: its event code,
    its LE subevent code, and whether the event, the view of its event
    code and the view of its subevent parse. *)
Record Hci : Type := {
  hci_valid : bool;
  hci_event_code : EventCode;
  hci_parameters_valid : bool;
  hci_subevent_code : SubeventCode;
  hci_subevent_valid : bool
}.

#[export] Instance layer : PacketLayer := {|
  CommandView := Pdu;
  CommandView_IsValid := Pdu_IsValid;
  GetCode := Pdu_GetCode;
  CodeText := Pdu_CodeText;
  View_IsValid := Pdu_View_IsValid;
  PairingFailedReason := byte;
  GetReason := Pdu_GetReason;
  EventView := Hci;
  EventView_IsValid := hci_valid;
  GetEventCode := hci_event_code;
  EncryptionChangeView_IsValid := hci_parameters_valid;
  EncryptionKeyRefreshCompleteView_IsValid := hci_parameters_valid;
  LeMetaEventView_IsValid := hci_parameters_valid;
  GetSubeventCode := hci_subevent_code;
  LeLongTermKeyRequestView_IsValid := hci_subevent_valid
|}.

(** The events of this layer. *)
Definition exit : @PairingEvent layer := PairingEvent_EXIT.
Definition l2cap (p : Pdu) : @PairingEvent layer := @PairingEvent_L2CAP layer p.
Definition ui (a : UI_ACTION_TYPE) (v : N) : @PairingEvent layer :=
  PairingEvent_UI a v.
Definition hci (ev : Hci) : @PairingEvent layer := @PairingEvent_HCI layer ev.

(** A PAIRING_CONFIRM PDU with the given 16-byte confirm value. *)
Definition confirm_pdu (value : byte) : Pdu := x03 :: repeat value 16.

(** A PAIRING_FAILED PDU with the given reason. *)
Definition failed_pdu (reason : byte) : Pdu := [x05; reason].

(** A PAIRING_RANDOM PDU. *)
Definition random_pdu (value : byte) : Pdu := x04 :: repeat value 16.

(** A handler with the given queue, an empty cache and a silent process. *)
Definition handler (q : list PairingEvent) : PairingHandlerLe :=
  {| queue := q; cached_pariring_confirm_view := None;
     wakeups := []; blocked := 0 |}.

(** An Encryption Change event and an LE Long Term Key Request event. *)
Definition encryption_change : Hci :=
  {| hci_valid := true; hci_event_code := ENCRYPTION_CHANGE;
     hci_parameters_valid := true;
     hci_subevent_code := OTHER_SUBEVENT_CODE 0; hci_subevent_valid := false |}.

Definition key_refresh : Hci :=
  {| hci_valid := true; hci_event_code := ENCRYPTION_KEY_REFRESH_COMPLETE;
     hci_parameters_valid := true;
     hci_subevent_code := OTHER_SUBEVENT_CODE 0; hci_subevent_valid := false |}.

Definition ltk_request : Hci :=
  {| hci_valid := true; hci_event_code := LE_META_EVENT;
     hci_parameters_valid := true;
     hci_subevent_code := LONG_TERM_KEY_REQUEST; hci_subevent_valid := true |}.

(** The PAIRING_CONFIRM view over [confirm_pdu value]. *)
Definition confirm (value : byte) : @PairingConfirmView layer :=
  @Create layer PAIRING_CONFIRM (confirm_pdu value).

(** A handler that holds a cached confirm, with the given queue. *)
Definition holding (value : byte) (q : list PairingEvent) : PairingHandlerLe :=
  {| queue := q; cached_pariring_confirm_view := Some (confirm value);
     wakeups := []; blocked := 0 |}.

(** A handler with an empty queue whose worker is woken spuriously after
    29 seconds, in a process that is silent afterwards. *)
Definition woken_spuriously : PairingHandlerLe :=
  {| queue := []; cached_pariring_confirm_view := None;
     wakeups := [ {| status := no_timeout; slept := 29; pushed := [] |} ];
     blocked := 0 |}.

(** A worker that finds the queue empty: after 5 seconds the peer's
    PAIRING_CONFIRM is pushed, 7 seconds later the passkey of the user. *)
Definition confirm_then_passkey : PairingHandlerLe :=
  {| queue := []; cached_pariring_confirm_view := None;
     wakeups :=
       [ {| status := no_timeout; slept := 5;
            pushed := [l2cap (confirm_pdu x11)] |};
         {| status := no_timeout; slept := 7;
            pushed := [ui PASSKEY 123456] |} ];
     blocked := 0 |}.

(** A worker whose wait times out while the passkey of the user is
    being pushed. *)
Definition passkey_too_late : PairingHandlerLe :=
  {| queue := []; cached_pariring_confirm_view := None;
     wakeups := [ {| status := timeout; slept := 30;
                     pushed := [ui PASSKEY 123456] |} ];
     blocked := 0 |}.

(** A worker woken spuriously after 29 seconds, and 5 seconds later by a
    PAIRING_RANDOM followed by an exit signal. *)
Definition woken_twice : PairingHandlerLe :=
  {| queue := []; cached_pariring_confirm_view := None;
     wakeups := [ {| status := no_timeout; slept := 29; pushed := [] |};
                  {| status := no_timeout; slept := 5;
                     pushed := [l2cap (random_pdu x22); exit] |} ];
     blocked := 0 |}.

(** The LE meta event view over [ltk_request]. *)
Definition ltk_request_le : @LeMetaEventView layer :=
  @LeMetaEventView_Create layer ltk_request.

End Wire.

(** * Properties *)

Section Properties.

Context {PL : PacketLayer}.

(** *** Tactics *)

(** Turn the comparisons of enumerators in the goal into equations. *)
Ltac decide_codes :=
  unfold EventCode_eqb, SubeventCode_eqb, Code_eqb, UI_ACTION_TYPE_eqb;
  repeat match goal with
  | |- context [EventCode_eq_dec ?a ?b] =>
      destruct (EventCode_eq_dec a b); cbv iota
  | |- context [SubeventCode_eq_dec ?a ?b] =>
      destruct (SubeventCode_eq_dec a b); cbv iota
  | |- context [Code_eq_dec ?a ?b] =>
      destruct (Code_eq_dec a b); cbv iota
  | |- context [UI_ACTION_TYPE_eq_dec ?a ?b] =>
      destruct (UI_ACTION_TYPE_eq_dec a b); cbv iota
  end.

(** Split every test of the goal, keeping the equations. *)
Ltac split_tests :=
  repeat match goal with
  | |- context [if negb ?b then _ else _] => destruct b eqn:?; simpl
  | |- context [if ?b then _ else _] => destruct b eqn:?; simpl
  end.

(** Close a goal about a waiter that classifies one event, once an EXIT is
    known to be queued ([Hor]): the waiter failed, or the EXIT is still
    queued. *)
Ltac one_event Hor :=
  split_tests;
  (split;
   [ reflexivity
   | first [ left; reflexivity
           | right; destruct Hor as [Hor|Hor]; [discriminate|exact Hor] ] ]).

(** *** Comparisons *)

Lemma Code_eqb_eq (a b : Code) : Code_eqb a b = true <-> a = b.
Proof. unfold Code_eqb. destruct (Code_eq_dec a b); split; congruence. Qed.

Lemma Code_eqb_neq (a b : Code) : Code_eqb a b = false <-> a <> b.
Proof. unfold Code_eqb. destruct (Code_eq_dec a b); split; congruence. Qed.

Lemma UI_ACTION_TYPE_eqb_eq (a b : UI_ACTION_TYPE) :
  UI_ACTION_TYPE_eqb a b = true <-> a = b.
Proof.
  unfold UI_ACTION_TYPE_eqb.
  destruct (UI_ACTION_TYPE_eq_dec a b); split; congruence.
Qed.

Lemma EventCode_eqb_eq (a b : EventCode) : EventCode_eqb a b = true <-> a = b.
Proof.
  unfold EventCode_eqb. destruct (EventCode_eq_dec a b); split; congruence.
Qed.

Lemma SubeventCode_eqb_eq (a b : SubeventCode) :
  SubeventCode_eqb a b = true <-> a = b.
Proof.
  unfold SubeventCode_eqb.
  destruct (SubeventCode_eq_dec a b); split; congruence.
Qed.

(** *** WaitForEvent *)

Lemma WaitForEvent_front (h : PairingHandlerLe) (e : PairingEvent)
  (q : list PairingEvent) :
  queue h = e :: q ->
  WaitForEvent h =
    (e, {| queue := q;
           cached_pariring_confirm_view := cached_pariring_confirm_view h;
           wakeups := wakeups h; blocked := blocked h |}).
Proof.
  intros Hq. unfold WaitForEvent. rewrite Hq.
  destruct (wakeups h); reflexivity.
Qed.

Lemma WaitForEvent_loop_cached (ws : list Wakeup) :
  forall q c t,
    cached_pariring_confirm_view (snd (WaitForEvent_loop ws q c t)) = c.
Proof.
  induction ws as [|w ws IH]; intros q c t; destruct q as [|e q]; simpl;
    try reflexivity.
  unfold wait_for. destruct (status w); simpl; [apply IH | reflexivity].
Qed.

Lemma WaitForEvent_cached (h : PairingHandlerLe) :
  cached_pariring_confirm_view (snd (WaitForEvent h))
  = cached_pariring_confirm_view h.
Proof. apply WaitForEvent_loop_cached. Qed.

Lemma WaitForEvent_push (h : PairingHandlerLe) (x : PairingEvent) :
  queue h <> [] ->
  WaitForEvent (push x h)
  = (fst (WaitForEvent h), push x (snd (WaitForEvent h))).
Proof.
  intros Hq. destruct (queue h) as [|e q] eqn:E; [congruence|].
  rewrite (WaitForEvent_front h e q E).
  rewrite (WaitForEvent_front (push x h) e (q ++ [x])).
  - reflexivity.
  - simpl. rewrite E. reflexivity.
Qed.

Lemma produce_push (p : Producer) (h : PairingHandlerLe) :
  produce p h = push (event_of p) h.
Proof. destruct p; reflexivity. Qed.

(** *** The cache *)

Lemma valid_pairing_confirm_split (p : CommandView) :
  valid_pairing_confirm p = true ->
  CommandView_IsValid p = true
  /\ Code_eqb (GetCode p) PAIRING_CONFIRM = true
  /\ View_IsValid PAIRING_CONFIRM p = true.
Proof.
  unfold valid_pairing_confirm. intros H.
  apply andb_true_iff in H. destruct H as [H H3].
  apply andb_true_iff in H. destruct H as [H1 H2]. auto.
Qed.

(** A valid PAIRING_CONFIRM as first event: cache it, wait once more. *)
Lemma WaitUiPasskey_confirm (h h1 : PairingHandlerLe) (p : CommandView) :
  WaitForEvent h = (PairingEvent_L2CAP p, h1) ->
  valid_pairing_confirm p = true ->
  WaitUiPasskey h =
    (let h2 := snd (set_cached (Some (Create PAIRING_CONFIRM p)) h1) in
     (ui_event_or_nullopt PASSKEY (fst (WaitForEvent h2)),
      snd (WaitForEvent h2))).
Proof.
  intros Hw Hv. apply valid_pairing_confirm_split in Hv.
  destruct Hv as (H1 & H2 & H3).
  unfold WaitUiPasskey, bind. rewrite Hw. rewrite H1. simpl.
  rewrite H2. simpl. unfold IsValid. simpl. rewrite H3. simpl.
  match goal with
  | |- context [WaitForEvent ?x] => destruct (WaitForEvent x) as [e2 h2]
  end.
  reflexivity.
Qed.

(** Any other first event: classify it, touch nothing. *)
Lemma WaitUiPasskey_other (h h1 : PairingHandlerLe) (e : PairingEvent) :
  WaitForEvent h = (e, h1) ->
  (forall p, e = PairingEvent_L2CAP p -> valid_pairing_confirm p = false) ->
  WaitUiPasskey h = (ui_event_or_nullopt PASSKEY e, h1).
Proof.
  intros Hw Hn. unfold WaitUiPasskey, bind. rewrite Hw.
  destruct e as [|p|a v|ev]; try reflexivity.
  specialize (Hn p eq_refl). unfold valid_pairing_confirm in Hn.
  destruct (CommandView_IsValid p); simpl in *; [|reflexivity].
  destruct (Code_eqb (GetCode p) PAIRING_CONFIRM); simpl in *; [|reflexivity].
  unfold IsValid. simpl. rewrite Hn. reflexivity.
Qed.

Lemma produce_cached (p : Producer) (h : PairingHandlerLe) :
  cached_pariring_confirm_view (produce p h) = cached_pariring_confirm_view h.
Proof. destruct p; reflexivity. Qed.

Lemma WaitPacket_state (CODE : Code) (h : PairingHandlerLe) :
  snd (WaitPacket CODE h) = snd (WaitForEvent h).
Proof.
  unfold WaitPacket, bind. destruct (WaitForEvent h) as [e h1]. simpl.
  destruct e as [|p|a v|ev]; try reflexivity.
  destruct (CommandView_IsValid p); simpl; [|reflexivity].
  destruct (Code_eqb (GetCode p) CODE); simpl.
  - destruct (IsValid (Create CODE p)); reflexivity.
  - destruct (Code_eqb (GetCode p) PAIRING_FAILED); [|reflexivity].
    destruct (IsValid (Create PAIRING_FAILED p)); reflexivity.
Qed.

Lemma WaitEncryptionChanged_state (h : PairingHandlerLe) :
  snd (WaitEncryptionChanged h) = snd (WaitForEvent h).
Proof.
  unfold WaitEncryptionChanged, bind. destruct (WaitForEvent h) as [e h1].
  simpl. destruct e as [|p|a v|ev]; try reflexivity.
  destruct (EventView_IsValid ev); simpl; [|reflexivity].
  destruct (EventCode_eqb (GetEventCode ev) ENCRYPTION_CHANGE).
  - destruct (EncryptionChangeView_IsValid ev); reflexivity.
  - destruct (EventCode_eqb (GetEventCode ev) ENCRYPTION_KEY_REFRESH_COMPLETE);
      [|reflexivity].
    destruct (EncryptionKeyRefreshCompleteView_IsValid ev); reflexivity.
Qed.

Lemma WaitLeLongTermKeyRequest_state (h : PairingHandlerLe) :
  snd (WaitLeLongTermKeyRequest h) = snd (WaitForEvent h).
Proof.
  unfold WaitLeLongTermKeyRequest, bind. destruct (WaitForEvent h) as [e h1].
  simpl. destruct e as [|p|a v|ev]; try reflexivity.
  destruct (EventView_IsValid ev); simpl; [|reflexivity].
  destruct (EventCode_eqb (GetEventCode ev) LE_META_EVENT); simpl; [|reflexivity].
  destruct (LeMetaEventView_IsValid ev); simpl; [|reflexivity].
  destruct (SubeventCode_eqb (GetSubeventCode ev) LONG_TERM_KEY_REQUEST);
    simpl; [|reflexivity].
  destruct (LeLongTermKeyRequestView_IsValid ev); reflexivity.
Qed.

Lemma call_state (w : Wait) (h : PairingHandlerLe) :
  w <> Wait_UiPasskey -> w <> Wait_PairingConfirm ->
  snd (call w h) = snd (WaitForEvent h).
Proof.
  intros N1 N2. destruct w; try congruence; unfold call, bind.
  - rewrite <- (WaitPacket_state CODE h).
    destruct (WaitPacket CODE h); reflexivity.
  - unfold WaitUiPairingAccept, bind.
    destruct (WaitForEvent h); reflexivity.
  - unfold WaitUiConfirmYesNo, bind.
    destruct (WaitForEvent h); reflexivity.
  - rewrite <- (WaitEncryptionChanged_state h).
    destruct (WaitEncryptionChanged h); reflexivity.
  - rewrite <- (WaitLeLongTermKeyRequest_state h).
    destruct (WaitLeLongTermKeyRequest h); reflexivity.
Qed.

(** Only [WaitUiPasskey] and [WaitPairingConfirm] change the cache. *)
Lemma exec_cached (op : Operation) (h : PairingHandlerLe) :
  names_cache op = false ->
  cached_pariring_confirm_view (exec op h) = cached_pariring_confirm_view h.
Proof.
  intros Hn. destruct op as [p| |w]; simpl.
  - apply produce_cached.
  - apply WaitForEvent_cached.
  - rewrite call_state.
    + apply WaitForEvent_cached.
    + intros ->. discriminate.
    + intros ->. discriminate.
Qed.

Lemma exec_all_cached (ops : list Operation) :
  forall h,
    forallb (fun op => negb (names_cache op)) ops = true ->
    cached_pariring_confirm_view (exec_all ops h)
    = cached_pariring_confirm_view h.
Proof.
  induction ops as [|op ops IH]; intros h Hall; simpl in *; [reflexivity|].
  apply andb_true_iff in Hall. destruct Hall as [Hop Hall].
  change (cached_pariring_confirm_view (exec_all ops (exec op h))
          = cached_pariring_confirm_view h).
  rewrite IH by assumption.
  apply exec_cached. now apply negb_true_iff.
Qed.

Lemma WaitPairingConfirm_cached (h : PairingHandlerLe)
  (pkt : PairingConfirmView) :
  cached_pariring_confirm_view h = Some pkt ->
  WaitPairingConfirm h =
    (inl pkt, {| queue := queue h; cached_pariring_confirm_view := None;
                 wakeups := wakeups h; blocked := blocked h |}).
Proof. intros Hc. unfold WaitPairingConfirm. rewrite Hc. reflexivity. Qed.

(** C1. A valid PAIRING_CONFIRM delivered while [WaitUiPasskey] waits is
    stored in the cache and the wait is issued again for the passkey; the
    next [WaitPairingConfirm], after any operations that do not name the
    cache, returns that confirm, leaves the queue as it is and empties
    the cache. *)
Theorem C1_early_confirm_cached_then_consumed
  (h h1 : PairingHandlerLe) (p : CommandView) (ops : list Operation) :
  WaitForEvent h = (PairingEvent_L2CAP p, h1) ->
  valid_pairing_confirm p = true ->
  forallb (fun op => negb (names_cache op)) ops = true ->
  let pkt := Create PAIRING_CONFIRM p in
  let h2 := snd (set_cached (Some pkt) h1) in
  let h3 := snd (WaitUiPasskey h) in
  let h4 := exec_all ops h3 in
  WaitUiPasskey h =
    (ui_event_or_nullopt PASSKEY (fst (WaitForEvent h2)), snd (WaitForEvent h2))
  /\ cached_pariring_confirm_view h3 = Some pkt
  /\ WaitPairingConfirm h4 =
       (inl pkt, {| queue := queue h4; cached_pariring_confirm_view := None;
                    wakeups := wakeups h4; blocked := blocked h4 |}).
Proof.
  intros Hw Hv Hops pkt h2 h3 h4.
  pose proof (WaitUiPasskey_confirm h h1 p Hw Hv) as Hp. cbv zeta in Hp.
  assert (Hc : cached_pariring_confirm_view h3 = Some pkt).
  { subst h3. rewrite Hp. simpl. rewrite WaitForEvent_cached. reflexivity. }
  split; [exact Hp|]. split; [exact Hc|].
  apply WaitPairingConfirm_cached.
  subst h4. rewrite exec_all_cached by assumption. exact Hc.
Qed.

(** C9. With the cache occupied, [WaitPairingConfirm] returns the cached
    confirm and changes nothing but the cache: the queue, the wake-ups to
    come and the time spent blocked are those before the call. *)
Theorem C9_cached_confirm_consumes_no_event
  (h : PairingHandlerLe) (pkt : PairingConfirmView) :
  cached_pariring_confirm_view h = Some pkt ->
  fst (WaitPairingConfirm h) = inl pkt
  /\ queue (snd (WaitPairingConfirm h)) = queue h
  /\ wakeups (snd (WaitPairingConfirm h)) = wakeups h
  /\ blocked (snd (WaitPairingConfirm h)) = blocked h
  /\ cached_pariring_confirm_view (snd (WaitPairingConfirm h)) = None.
Proof.
  intros Hc. rewrite (WaitPairingConfirm_cached h pkt Hc). simpl. auto.
Qed.

(** C8. In one [WaitUiPasskey] the wait is issued again at most once: once
    a valid PAIRING_CONFIRM is cached, a second event that is not a UI
    passkey (any L2CAP packet, a second valid PAIRING_CONFIRM too, EXIT,
    an HCI event, another UI action) makes the call return [nullopt]
    right after that event, with the first confirm still in the cache. *)
Theorem C8_passkey_wait_reissued_once
  (h h1 h2 : PairingHandlerLe) (p : CommandView) (e2 : PairingEvent) :
  WaitForEvent h = (PairingEvent_L2CAP p, h1) ->
  valid_pairing_confirm p = true ->
  WaitForEvent (snd (set_cached (Some (Create PAIRING_CONFIRM p)) h1))
    = (e2, h2) ->
  is_ui_action e2 PASSKEY = false ->
  WaitUiPasskey h = (None, h2)
  /\ cached_pariring_confirm_view h2 = Some (Create PAIRING_CONFIRM p).
Proof.
  intros Hw Hv Hw2 He2.
  rewrite (WaitUiPasskey_confirm h h1 p Hw Hv). cbv zeta.
  pose proof (WaitForEvent_cached
                (snd (set_cached (Some (Create PAIRING_CONFIRM p)) h1))) as Hc.
  rewrite Hw2 in *. simpl in *.
  unfold ui_event_or_nullopt. rewrite He2. auto.
Qed.

(** C10. The cache never holds more than one confirm: a PAIRING_CONFIRM
    that [WaitUiPasskey] caches while the cache is occupied replaces the
    one held before, and after every operation the cache is empty or
    holds one confirm. *)
Theorem C10_cache_holds_at_most_one
  (h h1 : PairingHandlerLe) (p : CommandView) (old : PairingConfirmView) :
  WaitForEvent h = (PairingEvent_L2CAP p, h1) ->
  valid_pairing_confirm p = true ->
  cached_pariring_confirm_view h = Some old ->
  held (snd (WaitUiPasskey h)) = [Create PAIRING_CONFIRM p]
  /\ (forall (ops : list Operation) (h' : PairingHandlerLe),
        (List.length (held (exec_all ops h')) <= 1)%nat).
Proof.
  intros Hw Hv _. split.
  - rewrite (WaitUiPasskey_confirm h h1 p Hw Hv). cbv zeta. simpl.
    unfold held. rewrite WaitForEvent_cached. reflexivity.
  - intros ops h'. unfold held.
    destruct (cached_pariring_confirm_view (exec_all ops h')); simpl; lia.
Qed.

(** C3. Waiting for any opcode but PAIRING_FAILED, a well-formed
    PAIRING_FAILED PDU as next event gives a [PairingFailure] that carries
    the reason of that PDU, as [GetReason] reads it. *)
Theorem C3_pairing_failed_reason_surfaced
  (CODE : Code) (h h1 : PairingHandlerLe) (p : CommandView) :
  CODE <> PAIRING_FAILED ->
  WaitForEvent h = (PairingEvent_L2CAP p, h1) ->
  CommandView_IsValid p = true ->
  GetCode p = PAIRING_FAILED ->
  View_IsValid PAIRING_FAILED p = true ->
  WaitPacket CODE h =
    (inr (PairingFailure_reason
            ("Was expecting " ++ CodeText CODE
               ++ ", but received PAIRING_FAILED instead")%string
            (GetReason p)), h1)
  /\ (forall f, fst (WaitPacket CODE h) = inr f ->
        reason_of f = Some (GetReason p)).
Proof.
  intros Hne Hw Hv Hc Hf.
  assert (E : WaitPacket CODE h =
    (inr (PairingFailure_reason
            ("Was expecting " ++ CodeText CODE
               ++ ", but received PAIRING_FAILED instead")%string
            (GetReason p)), h1)).
  { unfold WaitPacket, bind. rewrite Hw, Hv. simpl. rewrite Hc.
    replace (Code_eqb PAIRING_FAILED CODE) with false
      by (symmetry; apply Code_eqb_neq; congruence).
    simpl. unfold IsValid. simpl. rewrite Hf. reflexivity. }
  split; [exact E|].
  intros f Hr. rewrite E in Hr. simpl in Hr.
  injection Hr as <-. reflexivity.
Qed.

(** *** The HCI waiters *)

(** C7. [WaitEncryptionChanged] returns an [EncryptionChangeView] exactly
    when the next event is a valid HCI event with event code
    ENCRYPTION_CHANGE that parses as that view, an
    [EncryptionKeyRefreshCompleteView] exactly when it is a valid HCI
    event with event code ENCRYPTION_KEY_REFRESH_COMPLETE that parses as
    that view, and a [PairingFailure] for every other next event. *)
Theorem C7_encryption_changed_classification
  (h h1 : PairingHandlerLe) (e : PairingEvent) :
  WaitForEvent h = (e, h1) ->
  let r := fst (WaitEncryptionChanged h) in
  (forall v, r = EncryptionChanged_change v <->
     exists ev, e = PairingEvent_HCI ev
       /\ EventView_IsValid ev = true
       /\ GetEventCode ev = ENCRYPTION_CHANGE
       /\ EncryptionChangeView_IsValid ev = true
       /\ v = EncryptionChangeView_Create ev)
  /\ (forall v, r = EncryptionChanged_refresh v <->
     exists ev, e = PairingEvent_HCI ev
       /\ EventView_IsValid ev = true
       /\ GetEventCode ev = ENCRYPTION_KEY_REFRESH_COMPLETE
       /\ EncryptionKeyRefreshCompleteView_IsValid ev = true
       /\ v = EncryptionKeyRefreshCompleteView_Create ev)
  /\ ((exists f, r = EncryptionChanged_failure f) <->
      ~ (exists ev, e = PairingEvent_HCI ev
           /\ EventView_IsValid ev = true
           /\ ((GetEventCode ev = ENCRYPTION_CHANGE
                 /\ EncryptionChangeView_IsValid ev = true)
                \/ (GetEventCode ev = ENCRYPTION_KEY_REFRESH_COMPLETE
                    /\ EncryptionKeyRefreshCompleteView_IsValid ev = true)))).
Proof.
  intros Hw r. subst r. unfold WaitEncryptionChanged, bind. rewrite Hw.
  destruct e as [|p|a u|ev]; simpl.
  1-3: (repeat split; try discriminate;
        try (intros (ev & He & _); discriminate);
        try (intros _ (ev & He & _); discriminate);
        try (intros _; eexists; reflexivity)).
  destruct (EventView_IsValid ev) eqn:Hv; simpl.
  2: { repeat split; try discriminate.
       - intros (ev' & He & Hv' & _). injection He as <-. congruence.
       - intros (ev' & He & Hv' & _). injection He as <-. congruence.
       - intros _ (ev' & He & Hv' & _). injection He as <-. congruence.
       - intros _. eexists; reflexivity. }
  decide_codes.
  - (* ENCRYPTION_CHANGE *)
    destruct (EncryptionChangeView_IsValid ev) eqn:Hp; simpl.
    + repeat split; try discriminate.
      * intros H. injection H as <-. exists ev. auto.
      * intros (ev' & He & _ & _ & _ & ->). injection He as <-. reflexivity.
      * intros (ev' & He & _ & Hc & _). injection He as <-. congruence.
      * intros (f & Hf). discriminate.
      * intros Hn. exfalso. apply Hn. exists ev. auto.
    + repeat split; try discriminate.
      * intros (ev' & He & _ & _ & Hp' & _). injection He as <-. congruence.
      * intros (ev' & He & _ & Hc & _). injection He as <-. congruence.
      * intros _ (ev' & He & _ & [[_ Hp']|[Hc _]]); injection He as <-;
          congruence.
      * intros _. eexists; reflexivity.
  - (* ENCRYPTION_KEY_REFRESH_COMPLETE *)
    destruct (EncryptionKeyRefreshCompleteView_IsValid ev) eqn:Hp; simpl.
    + repeat split; try discriminate.
      * intros (ev' & He & _ & Hc & _). injection He as <-. congruence.
      * intros H. injection H as <-. exists ev. auto.
      * intros (ev' & He & _ & _ & _ & ->). injection He as <-. reflexivity.
      * intros (f & Hf). discriminate.
      * intros Hn. exfalso. apply Hn. exists ev. auto.
    + repeat split; try discriminate.
      * intros (ev' & He & _ & Hc & _). injection He as <-. congruence.
      * intros (ev' & He & _ & _ & Hp' & _). injection He as <-. congruence.
      * intros _ (ev' & He & _ & [[Hc _]|[_ Hp']]); injection He as <-;
          congruence.
      * intros _. eexists; reflexivity.
  - (* another event code *)
    repeat split; try discriminate.
    + intros (ev' & He & _ & Hc & _). injection He as <-. congruence.
    + intros (ev' & He & _ & Hc & _). injection He as <-. congruence.
    + intros _ (ev' & He & _ & [[Hc _]|[Hc _]]); injection He as <-;
        congruence.
    + intros _. eexists; reflexivity.
Qed.

(** *** All typed waiters *)

(** [WaitPairingConfirm] with an empty cache is [WaitPacket]. *)
Lemma WaitPairingConfirm_empty (h : PairingHandlerLe) :
  cached_pariring_confirm_view h = None ->
  WaitPairingConfirm h = WaitPacket PAIRING_CONFIRM h.
Proof. intros Hc. unfold WaitPairingConfirm. rewrite Hc. reflexivity. Qed.


(** The waiters succeed on the events they expect: [expects] is not wider
    than what the code accepts. *)
Lemma expected_event_accepted (w : Wait) (h h1 : PairingHandlerLe)
  (e : PairingEvent) :
  WaitForEvent h = (e, h1) ->
  (w = Wait_PairingConfirm -> cached_pariring_confirm_view h = None) ->
  expects w e = true ->
  is_failure (fst (call w h)) = false /\ snd (call w h) = h1.
Proof.
  intros Hw Hc Hx.
  destruct w; simpl in Hx; unfold call, bind;
    try rewrite (WaitPairingConfirm_empty h (Hc eq_refl));
    unfold WaitPacket, WaitUiPairingAccept, WaitUiConfirmYesNo, WaitUiPasskey,
      WaitEncryptionChanged, WaitLeLongTermKeyRequest, bind,
      ui_event_or_nullopt, valid_pairing_confirm, IsValid in *;
    rewrite Hw; destruct e as [|p|a u|ev]; simpl in *; try discriminate;
    repeat match goal with
    | H : _ && _ = true |- _ => apply andb_true_iff in H; destruct H
    end;
    repeat match goal with
    | H : ?b = true |- context [?b] => rewrite H; simpl
    end; auto.
  - (* WaitEncryptionChanged *)
    match goal with H : _ || _ = true |- _ => apply orb_true_iff in H;
      destruct H as [H|H]; apply andb_true_iff in H; destruct H as [Ha Hb] end.
    + rewrite Ha, Hb. simpl. auto.
    + destruct (EventCode_eqb (GetEventCode ev) ENCRYPTION_CHANGE) eqn:E.
      * apply EventCode_eqb_eq in E, Ha. congruence.
      * rewrite Ha, Hb. simpl. auto.
Qed.


(** *** The queue is first in, first out *)

Lemma produce_all_queue (ps : list Producer) :
  forall h,
    produce_all ps h =
      {| queue := queue h ++ map event_of ps;
         cached_pariring_confirm_view := cached_pariring_confirm_view h;
         wakeups := wakeups h; blocked := blocked h |}.
Proof.
  induction ps as [|p ps IH]; intros h; simpl.
  - rewrite app_nil_r. destruct h; reflexivity.
  - change (fold_left (fun h0 p0 => produce p0 h0) ps (produce p h))
      with (produce_all ps (produce p h)).
    rewrite IH, produce_push. simpl. rewrite <- app_assoc. reflexivity.
Qed.

(** Calls on a queue that holds enough events take them from the front,
    in order, and neither wait nor touch anything else. *)
Lemma WaitForEvents_front (a : list PairingEvent) :
  forall b c ws t,
    WaitForEvents (List.length a)
      {| queue := a ++ b; cached_pariring_confirm_view := c;
         wakeups := ws; blocked := t |}
    = (a, {| queue := b; cached_pariring_confirm_view := c;
             wakeups := ws; blocked := t |}).
Proof.
  induction a as [|e a IH]; intros b c ws t; simpl; [reflexivity|].
  unfold bind.
  rewrite (WaitForEvent_front
             {| queue := e :: a ++ b; cached_pariring_confirm_view := c;
                wakeups := ws; blocked := t |} e (a ++ b) eq_refl).
  simpl. rewrite IH. reflexivity.
Qed.

(** C5. The events the producers enqueue are returned by successive calls
    of [WaitForEvent] in the order they were enqueued, after the events
    already in the queue: [n] calls return the first [n] of them and
    leave the others queued, in order. *)
Theorem C5_queue_is_fifo
  (h : PairingHandlerLe) (ps : list Producer) (n : nat) :
  let all := queue h ++ map event_of ps in
  WaitForEvents (Nat.min n (List.length all)) (produce_all ps h)
  = (firstn n all,
     {| queue := skipn n all;
        cached_pariring_confirm_view := cached_pariring_confirm_view h;
        wakeups := wakeups h; blocked := blocked h |}).
Proof.
  intros all. rewrite produce_all_queue. fold all.
  rewrite <- (firstn_skipn n all) at 2.
  rewrite <- (length_firstn n all).
  apply WaitForEvents_front.
Qed.

(** *** Exit *)

(** While an EXIT is queued, [WaitForEvent] does not see what is pushed
    behind it: it returns EXIT, or an event before it. *)
Lemma WaitForEvent_exit (h : PairingHandlerLe) (x : PairingEvent) :
  In PairingEvent_EXIT (queue h) ->
  WaitForEvent (push x h)
    = (fst (WaitForEvent h), push x (snd (WaitForEvent h)))
  /\ (fst (WaitForEvent h) = PairingEvent_EXIT
      \/ In PairingEvent_EXIT (queue (snd (WaitForEvent h)))).
Proof.
  intros Hin. split.
  - apply WaitForEvent_push. intros Hq. rewrite Hq in Hin. exact Hin.
  - destruct (queue h) as [|e q] eqn:Hq; [contradiction|].
    rewrite (WaitForEvent_front h e q Hq). simpl.
    destruct Hin as [->|Hin]; auto.
Qed.

Lemma call_exit (w : Wait) (h : PairingHandlerLe) (x : PairingEvent) :
  In PairingEvent_EXIT (queue h) ->
  call w (push x h) = (fst (call w h), push x (snd (call w h)))
  /\ (is_failure (fst (call w h)) = true
      \/ In PairingEvent_EXIT (queue (snd (call w h)))).
Proof.
  intros Hin. destruct (WaitForEvent_exit h x Hin) as [Hpush Hor].
  destruct w; unfold call, bind.
  - unfold WaitPacket, bind. rewrite Hpush.
    destruct (WaitForEvent h) as [e h1]. simpl in *.
    destruct e as [|p|a u|ev]; simpl; one_event Hor.
  - unfold WaitPairingConfirm. simpl.
    destruct (cached_pariring_confirm_view h) as [pkt|]; simpl.
    + split; [reflexivity|]. right. exact Hin.
    + unfold WaitPacket, bind. rewrite Hpush.
      destruct (WaitForEvent h) as [e h1]. simpl in *.
      destruct e as [|p|a u|ev]; simpl; one_event Hor.
  - unfold WaitUiPairingAccept, bind, ui_event_or_nullopt. rewrite Hpush.
    destruct (WaitForEvent h) as [e h1]. simpl in *.
    destruct e as [|p|a u|ev]; simpl; one_event Hor.
  - unfold WaitUiConfirmYesNo, bind, ui_event_or_nullopt. rewrite Hpush.
    destruct (WaitForEvent h) as [e h1]. simpl in *.
    destruct e as [|p|a u|ev]; simpl; one_event Hor.
  - unfold WaitUiPasskey, bind. rewrite Hpush.
    destruct (WaitForEvent h) as [e h1]. simpl in *.
    destruct e as [|p|a u|ev]; simpl;
      try (unfold ui_event_or_nullopt; simpl; one_event Hor).
    destruct Hor as [Hor|Hor]; [discriminate|].
    destruct (CommandView_IsValid p); simpl; [|auto].
    destruct (Code_eqb (GetCode p) PAIRING_CONFIRM); simpl; [|auto].
    destruct (IsValid (Create PAIRING_CONFIRM p)); simpl; [|auto].
    set (h2 := {| queue := queue h1;
                  cached_pariring_confirm_view := Some (Create PAIRING_CONFIRM p);
                  wakeups := wakeups h1; blocked := blocked h1 |}).
    change {| queue := queue h1 ++ [x];
              cached_pariring_confirm_view := Some (Create PAIRING_CONFIRM p);
              wakeups := wakeups h1; blocked := blocked h1 |}
      with (push x h2).
    destruct (WaitForEvent_exit h2 x Hor) as [Hpush2 Hor2].
    rewrite Hpush2. destruct (WaitForEvent h2) as [e2 h3]. simpl in *.
    unfold ui_event_or_nullopt.
    destruct e2 as [|p2|a2 u2|ev2]; simpl; one_event Hor2.
  - unfold WaitEncryptionChanged, bind. rewrite Hpush.
    destruct (WaitForEvent h) as [e h1]. simpl in *.
    destruct e as [|p|a u|ev]; simpl; one_event Hor.
  - unfold WaitLeLongTermKeyRequest, bind. rewrite Hpush.
    destruct (WaitForEvent h) as [e h1]. simpl in *.
    destruct e as [|p|a u|ev]; simpl; one_event Hor.
Qed.

(** A worker never reads what is pushed behind a queued EXIT. *)
Lemma PairingMain_exit (R : Type) (prog : Worker R) :
  forall (h : PairingHandlerLe) (x : PairingEvent),
    In PairingEvent_EXIT (queue h) ->
    PairingMain prog (push x h)
    = (fst (PairingMain prog h), push x (snd (PairingMain prog h))).
Proof.
  induction prog as [result|w next IH]; intros h x Hin; simpl.
  - reflexivity.
  - destruct (call_exit w h x Hin) as [Hcall Hor]. rewrite Hcall.
    destruct (call w h) as [r h1]. simpl in *.
    destruct (is_failure r); [reflexivity|].
    destruct Hor as [Hor|Hor]; [discriminate|].
    apply IH. exact Hor.
Qed.

Lemma PairingMain_exit_all (R : Type) (prog : Worker R)
  (ps : list Producer) :
  forall h : PairingHandlerLe,
    In PairingEvent_EXIT (queue h) ->
    PairingMain prog (produce_all ps h)
    = (fst (PairingMain prog h), produce_all ps (snd (PairingMain prog h))).
Proof.
  induction ps as [|p ps IH]; intros h Hin.
  - simpl. destruct (PairingMain prog h); reflexivity.
  - change (produce_all (p :: ps) h) with (produce_all ps (produce p h)).
    rewrite produce_push. rewrite IH.
    + rewrite PairingMain_exit by exact Hin. cbn [fst snd].
      change (produce_all (p :: ps) (snd (PairingMain prog h)))
        with (produce_all ps (produce p (snd (PairingMain prog h)))).
      rewrite produce_push. reflexivity.
    + simpl. apply in_or_app. left. exact Hin.
Qed.

(** C6. Two consecutive [SendExitSignal] end the session as one does: the
    worker ends with the same outcome and leaves the same handler, but
    for the second EXIT, which stays in the queue unread; so does
    anything else the producers enqueue behind the first EXIT. *)
Theorem C6_SendExitSignal_idempotent
  (R : Type) (prog : Worker R) (h : PairingHandlerLe) :
  let once := PairingMain prog (SendExitSignal h) in
  let twice := PairingMain prog (SendExitSignal (SendExitSignal h)) in
  fst twice = fst once
  /\ snd twice = SendExitSignal (snd once)
  /\ queue (snd twice) = queue (snd once) ++ [PairingEvent_EXIT]
  /\ cached_pariring_confirm_view (snd twice)
     = cached_pariring_confirm_view (snd once)
  /\ (forall ps : list Producer,
        PairingMain prog (produce_all ps (SendExitSignal h))
        = (fst once, produce_all ps (snd once))).
Proof.
  intros once twice.
  assert (Hin : In PairingEvent_EXIT (queue (SendExitSignal h))).
  { simpl. apply in_or_app. right. left. reflexivity. }
  assert (Htwice : twice = (fst once, SendExitSignal (snd once))).
  { subst once twice. unfold SendExitSignal at 1.
    rewrite PairingMain_exit by exact Hin. reflexivity. }
  rewrite Htwice. simpl. repeat split.
  intros ps. apply PairingMain_exit_all. exact Hin.
Qed.

(** *** What the packet waiters return *)

(** X1. [WaitPacket<CODE>] returns a packet view exactly when the next
    event is a valid L2CAP packet whose opcode is CODE and which parses as
    the view of CODE; the view returned is the one over that packet. *)
Theorem WaitPacket_returns_view
  (CODE : Code) (h h1 : PairingHandlerLe) (e : PairingEvent)
  (pkt : CodeToPacketView CODE) :
  WaitForEvent h = (e, h1) ->
  (fst (WaitPacket CODE h) = inl pkt <->
   exists p, e = PairingEvent_L2CAP p
     /\ CommandView_IsValid p = true
     /\ GetCode p = CODE
     /\ View_IsValid CODE p = true
     /\ pkt = Create CODE p).
Proof.
  intros Hw. unfold WaitPacket, bind. rewrite Hw.
  destruct e as [|p|a u|ev]; simpl;
    try (split; [discriminate | intros (p' & He & _); discriminate]).
  unfold IsValid. simpl.
  destruct (CommandView_IsValid p) eqn:Hv; simpl.
  2: { split; [discriminate|].
       intros (p' & He & Hv' & _). injection He as <-. congruence. }
  destruct (Code_eqb (GetCode p) CODE) eqn:Hc; simpl.
  - apply Code_eqb_eq in Hc.
    destruct (View_IsValid CODE p) eqn:Hp; simpl.
    + split.
      * intros H. injection H as <-. exists p. auto.
      * intros (p' & He & _ & _ & _ & ->). injection He as <-. reflexivity.
    + split; [discriminate|].
      intros (p' & He & _ & _ & Hp' & _). injection He as <-. congruence.
  - apply Code_eqb_neq in Hc.
    assert (Hno : forall f : PairingFailure,
              @inr (CodeToPacketView CODE) PairingFailure f = inl pkt <->
              exists p0, PairingEvent_L2CAP p = PairingEvent_L2CAP p0
                /\ CommandView_IsValid p0 = true /\ GetCode p0 = CODE
                /\ View_IsValid CODE p0 = true /\ pkt = Create CODE p0).
    { intros f. split; [discriminate|].
      intros (p' & He & _ & Hc' & _). injection He as <-. congruence. }
    split_tests; apply Hno.
Qed.

(** X2. A failure of [WaitPacket<CODE>] carries an SMP reason code exactly
    when the peer sent a well-formed PAIRING_FAILED PDU while another
    opcode was awaited, and the reason is then the one of that PDU: the
    waiter never reports a reason the peer did not send. *)
Theorem WaitPacket_reason_only_from_peer
  (CODE : Code) (h h1 : PairingHandlerLe) (e : PairingEvent)
  (r : PairingFailedReason) :
  WaitForEvent h = (e, h1) ->
  ((exists f, fst (WaitPacket CODE h) = inr f /\ reason_of f = Some r) <->
   exists p, e = PairingEvent_L2CAP p
     /\ CommandView_IsValid p = true
     /\ GetCode p = PAIRING_FAILED
     /\ CODE <> PAIRING_FAILED
     /\ View_IsValid PAIRING_FAILED p = true
     /\ r = GetReason p).
Proof.
  intros Hw. unfold WaitPacket, bind. rewrite Hw.
  destruct e as [|p|a u|ev]; simpl;
    try (split; [ intros (f & Hf & Hr); injection Hf as <-; discriminate
                | intros (p' & He & _); discriminate ]).
  unfold IsValid. simpl.
  destruct (CommandView_IsValid p) eqn:Hv; simpl.
  2: { split.
       - intros (f & Hf & Hr). injection Hf as <-. discriminate.
       - intros (p' & He & Hv' & _). injection He as <-. congruence. }
  destruct (Code_eqb (GetCode p) CODE) eqn:Hc; simpl.
  - apply Code_eqb_eq in Hc.
    split.
    + intros (f & Hf & Hr).
      destruct (View_IsValid CODE p); simpl in Hf; [discriminate|].
      injection Hf as <-. discriminate.
    + intros (p' & He & _ & Hc' & Hne & _). injection He as <-. congruence.
  - apply Code_eqb_neq in Hc.
    destruct (Code_eqb (GetCode p) PAIRING_FAILED) eqn:Hf; simpl.
    + apply Code_eqb_eq in Hf.
      destruct (View_IsValid PAIRING_FAILED p) eqn:Hp; simpl.
      * split.
        -- intros (f & Hf' & Hr). injection Hf' as <-. simpl in Hr.
           injection Hr as <-. exists p. repeat split; auto. congruence.
        -- intros (p' & He & _ & _ & _ & _ & ->). injection He as <-.
           eexists. split; reflexivity.
      * split.
        -- intros (f & Hf' & Hr). injection Hf' as <-. discriminate.
        -- intros (p' & He & _ & _ & _ & Hp' & _). injection He as <-.
           congruence.
    + apply Code_eqb_neq in Hf. split.
      * intros (f & Hf' & Hr). injection Hf' as <-. discriminate.
      * intros (p' & He & _ & Hc' & _). injection He as <-. congruence.
Qed.

(** X3. A failure of [WaitPacket<CODE>] carries a received opcode exactly
    when the next event is a valid L2CAP packet of that opcode, and the
    opcode is neither CODE nor PAIRING_FAILED. *)
Theorem WaitPacket_reports_received_code
  (CODE c : Code) (h h1 : PairingHandlerLe) (e : PairingEvent) :
  WaitForEvent h = (e, h1) ->
  ((exists message,
      fst (WaitPacket CODE h) = inr (PairingFailure_received message c)) <->
   exists p, e = PairingEvent_L2CAP p
     /\ CommandView_IsValid p = true
     /\ GetCode p = c
     /\ c <> CODE
     /\ c <> PAIRING_FAILED).
Proof.
  intros Hw. unfold WaitPacket, bind. rewrite Hw.
  destruct e as [|p|a u|ev]; simpl;
    try (split; [ intros (m & Hm); discriminate
                | intros (p' & He & _); discriminate ]).
  unfold IsValid. simpl.
  destruct (CommandView_IsValid p) eqn:Hv; simpl.
  2: { split.
       - intros (m & Hm). discriminate.
       - intros (p' & He & Hv' & _). injection He as <-. congruence. }
  destruct (Code_eqb (GetCode p) CODE) eqn:Hc; simpl.
  - apply Code_eqb_eq in Hc. split.
    + intros (m & Hm). destruct (View_IsValid CODE p); discriminate.
    + intros (p' & He & _ & Hc' & Hne & _). injection He as <-. congruence.
  - apply Code_eqb_neq in Hc.
    destruct (Code_eqb (GetCode p) PAIRING_FAILED) eqn:Hf; simpl.
    + apply Code_eqb_eq in Hf. split.
      * intros (m & Hm).
        destruct (View_IsValid PAIRING_FAILED p); discriminate.
      * intros (p' & He & _ & Hc' & _ & Hnf). injection He as <-. congruence.
    + apply Code_eqb_neq in Hf. split.
      * intros (m & Hm). injection Hm as _ <-. exists p. auto.
      * intros (p' & He & _ & <- & _). injection He as <-.
        eexists. reflexivity.
Qed.

(** X4. [WaitLeLongTermKeyRequest] returns a request exactly when the next
    event is a valid HCI event with event code LE_META_EVENT that parses
    as an LE meta event, has subevent code LONG_TERM_KEY_REQUEST and
    parses as a long term key request; the view returned is over that
    event. *)
Theorem WaitLeLongTermKeyRequest_returns_request
  (h h1 : PairingHandlerLe) (e : PairingEvent)
  (v : LeLongTermKeyRequestView) :
  WaitForEvent h = (e, h1) ->
  (fst (WaitLeLongTermKeyRequest h) = inr v <->
   exists ev, e = PairingEvent_HCI ev
     /\ EventView_IsValid ev = true
     /\ GetEventCode ev = LE_META_EVENT
     /\ LeMetaEventView_IsValid ev = true
     /\ GetSubeventCode ev = LONG_TERM_KEY_REQUEST
     /\ LeLongTermKeyRequestView_IsValid ev = true
     /\ v = LeLongTermKeyRequestView_Create (LeMetaEventView_Create ev)).
Proof.
  intros Hw. unfold WaitLeLongTermKeyRequest, bind. rewrite Hw.
  destruct e as [|p|a u|ev]; simpl;
    try (split; [discriminate | intros (ev' & He & _); discriminate]).
  destruct (EventView_IsValid ev) eqn:Hv; simpl.
  2: { split; [discriminate|].
       intros (ev' & He & Hv' & _). injection He as <-. congruence. }
  destruct (EventCode_eqb (GetEventCode ev) LE_META_EVENT) eqn:Hc; simpl.
  2: { split; [discriminate|].
       intros (ev' & He & _ & Hc' & _). injection He as <-.
       apply EventCode_eqb_eq in Hc'. congruence. }
  destruct (LeMetaEventView_IsValid ev) eqn:Hm; simpl.
  2: { split; [discriminate|].
       intros (ev' & He & _ & _ & Hm' & _). injection He as <-. congruence. }
  destruct (SubeventCode_eqb (GetSubeventCode ev) LONG_TERM_KEY_REQUEST)
    eqn:Hs; simpl.
  2: { split; [discriminate|].
       intros (ev' & He & _ & _ & _ & Hs' & _). injection He as <-.
       apply SubeventCode_eqb_eq in Hs'. congruence. }
  destruct (LeLongTermKeyRequestView_IsValid ev) eqn:Hl; simpl.
  2: { split; [discriminate|].
       intros (ev' & He & _ & _ & _ & _ & Hl' & _). injection He as <-.
       congruence. }
  apply EventCode_eqb_eq in Hc. apply SubeventCode_eqb_eq in Hs. split.
  - intros H. injection H as <-. exists ev. repeat split; auto.
  - intros (ev' & He & _ & _ & _ & _ & _ & ->). injection He as <-.
    reflexivity.
Qed.

(** *** What the UI waiters return *)

Lemma ui_event_or_nullopt_Some (a : UI_ACTION_TYPE) (x y : PairingEvent) :
  ui_event_or_nullopt a x = Some y <->
  y = x /\ exists v, x = PairingEvent_UI a v.
Proof.
  unfold ui_event_or_nullopt.
  destruct x as [|p|a0 u|ev]; simpl;
    try (split; [discriminate | intros [_ [v Hv]]; discriminate]).
  unfold UI_ACTION_TYPE_eqb. destruct (UI_ACTION_TYPE_eq_dec a0 a) as [->|Hne].
  - split; [intros H; injection H as <-; eauto | intros [-> _]; reflexivity].
  - split; [discriminate|]. intros [_ [v Hv]]. injection Hv as -> _.
    congruence.
Qed.

(** X5. [WaitUiPairingAccept] and [WaitUiConfirmYesNo] return an event
    exactly when the next event is a UI action of their kind, and they
    return that very event, with the value the UI gave. *)
Theorem WaitUi_returns_the_event
  (h h1 : PairingHandlerLe) (e e' : PairingEvent) :
  WaitForEvent h = (e, h1) ->
  (fst (WaitUiPairingAccept h) = Some e' <->
     e' = e /\ exists v, e = PairingEvent_UI PAIRING_ACCEPTED v)
  /\ (fst (WaitUiConfirmYesNo h) = Some e' <->
     e' = e /\ exists v, e = PairingEvent_UI CONFIRM_YESNO v)
  /\ snd (WaitUiPairingAccept h) = h1
  /\ snd (WaitUiConfirmYesNo h) = h1.
Proof.
  intros Hw. unfold WaitUiPairingAccept, WaitUiConfirmYesNo, bind.
  rewrite Hw. simpl.
  split; [apply ui_event_or_nullopt_Some|].
  split; [apply ui_event_or_nullopt_Some|]. auto.
Qed.

(** X6. [WaitUiPasskey] returns an event exactly when the next event is a
    UI passkey, or when it is a valid PAIRING_CONFIRM and the event after
    it is a UI passkey; it returns that passkey event. *)
Theorem WaitUiPasskey_returns_the_passkey
  (h h1 : PairingHandlerLe) (e e' : PairingEvent) :
  WaitForEvent h = (e, h1) ->
  (fst (WaitUiPasskey h) = Some e' <->
     (e' = e /\ exists v, e = PairingEvent_UI PASSKEY v)
     \/ (exists p v,
           e = PairingEvent_L2CAP p
           /\ valid_pairing_confirm p = true
           /\ fst (WaitForEvent
                     (snd (set_cached (Some (Create PAIRING_CONFIRM p)) h1)))
              = e'
           /\ e' = PairingEvent_UI PASSKEY v)).
Proof.
  intros Hw.
  destruct e as [|p|a u|ev].
  2: destruct (valid_pairing_confirm p) eqn:Hv.
  2: { rewrite (WaitUiPasskey_confirm h h1 p Hw Hv). cbv zeta. simpl.
       rewrite ui_event_or_nullopt_Some. split.
       - intros [-> [v Hv']]. right. exists p, v. auto.
       - intros [[_ [v Hv']]|(p' & v & He & _ & <- & Hv')]; [discriminate|].
         injection He as <-. eauto. }
  all: rewrite (WaitUiPasskey_other h h1 _ Hw)
      by (intros p' Hp'; try discriminate; injection Hp' as <-; assumption);
    simpl; rewrite ui_event_or_nullopt_Some; split;
    [ intros H; left; exact H
    | intros [H|(p' & v & He & Hv' & _)]; [exact H|];
      try discriminate; injection He as <-; congruence ].
Qed.

(** *** Who touches the cache *)

(** X7. Only [WaitUiPasskey] and [WaitPairingConfirm] change the cache:
    the producers, [WaitForEvent] and the other typed waiters, in any
    number and order, leave the cached confirm as it is. *)
Theorem cache_survives_other_operations
  (ops : list Operation) (h : PairingHandlerLe) :
  forallb (fun op => negb (names_cache op)) ops = true ->
  cached_pariring_confirm_view (exec_all ops h)
  = cached_pariring_confirm_view h.
Proof. apply exec_all_cached. Qed.

(** X8. After [WaitPairingConfirm] the cache is empty, whatever it held
    and whatever the call returned; a second call therefore reads the
    queue as [WaitPacket<PAIRING_CONFIRM>] does. *)
Theorem WaitPairingConfirm_empties_cache (h : PairingHandlerLe) :
  cached_pariring_confirm_view (snd (WaitPairingConfirm h)) = None
  /\ WaitPairingConfirm (snd (WaitPairingConfirm h))
     = WaitPacket PAIRING_CONFIRM (snd (WaitPairingConfirm h)).
Proof.
  assert (Hc : cached_pariring_confirm_view (snd (WaitPairingConfirm h)) = None).
  { destruct (cached_pariring_confirm_view h) as [pkt|] eqn:E.
    - rewrite (WaitPairingConfirm_cached h pkt E). reflexivity.
    - rewrite (WaitPairingConfirm_empty h E).
      pose proof (WaitPacket_state PAIRING_CONFIRM h) as Hs.
      unfold PairingConfirmView in *. rewrite Hs, WaitForEvent_cached.
      exact E. }
  split; [exact Hc|]. apply WaitPairingConfirm_empty. exact Hc.
Qed.

(** X9. [WaitUiPasskey] writes the cache exactly when its first event is a
    valid PAIRING_CONFIRM, and the cache then holds the view over that
    packet; after any other first event (a malformed packet, another
    opcode, an event that is not an L2CAP packet) the cache is as it was.
    An occupied cache is therefore never emptied. *)
Theorem WaitUiPasskey_writes_cache_on_confirm_only (h : PairingHandlerLe) :
  cached_pariring_confirm_view (snd (WaitUiPasskey h))
  = match fst (WaitForEvent h) with
    | PairingEvent_L2CAP p =>
        if valid_pairing_confirm p
        then Some (Create PAIRING_CONFIRM p)
        else cached_pariring_confirm_view h
    | _ => cached_pariring_confirm_view h
    end
  /\ (cached_pariring_confirm_view h <> None ->
      cached_pariring_confirm_view (snd (WaitUiPasskey h)) <> None).
Proof.
  assert (H : cached_pariring_confirm_view (snd (WaitUiPasskey h))
              = match fst (WaitForEvent h) with
                | PairingEvent_L2CAP p =>
                    if valid_pairing_confirm p
                    then Some (Create PAIRING_CONFIRM p)
                    else cached_pariring_confirm_view h
                | _ => cached_pariring_confirm_view h
                end).
  { destruct (WaitForEvent h) as [e h1] eqn:Hw.
    pose proof (WaitForEvent_cached h) as Hc. rewrite Hw in Hc. simpl in Hc.
    cbn [fst].
    destruct e as [|p|a u|ev].
    2: destruct (valid_pairing_confirm p) eqn:Hv.
    2: { rewrite (WaitUiPasskey_confirm h h1 p Hw Hv). cbv zeta. simpl.
         rewrite WaitForEvent_cached. reflexivity. }
    all: rewrite (WaitUiPasskey_other h h1 _ Hw)
        by (intros p' Hp'; try discriminate; injection Hp' as <-; assumption);
      exact Hc. }
  split; [exact H|].
  intros Hne. rewrite H.
  destruct (fst (WaitForEvent h)) as [|p|a u|ev]; try exact Hne.
  destruct (valid_pairing_confirm p); [discriminate|exact Hne].
Qed.

(** *** No event is lost *)

Lemma WaitForEvent_loop_step (ws : list Wakeup) :
  forall q c t,
    let r := WaitForEvent_loop ws q c t in
    let all := q ++ List.concat (map pushed ws) in
    match q with
    | [] =>
        if wait_times_out ws
        then fst r = PairingEvent_EXIT /\ pending (snd r) = all
        else all = fst r :: pending (snd r)
    | _ :: _ => all = fst r :: pending (snd r)
    end.
Proof.
  induction ws as [|w ws IH]; intros q c t; destruct q as [|e q];
    cbn [WaitForEvent_loop wait_times_out].
  - split; reflexivity.
  - reflexivity.
  - unfold wait_for. cbv zeta. cbn [map List.concat app].
    destruct (status w).
    + destruct (pushed w) as [|e q].
      * cbn [app]. apply (IH [] c).
      * destruct ws; reflexivity.
    + split; reflexivity.
  - reflexivity.
Qed.

(** One call: it times out, returns EXIT and takes no event, or it
    returns the first pending event and takes it. *)
Lemma WaitForEvent_step (h : PairingHandlerLe) :
  if times_out h
  then fst (WaitForEvent h) = PairingEvent_EXIT
       /\ pending (snd (WaitForEvent h)) = pending h
  else pending h = fst (WaitForEvent h) :: pending (snd (WaitForEvent h)).
Proof.
  pose proof (WaitForEvent_loop_step (wakeups h) (queue h)
                (cached_pariring_confirm_view h) (blocked h)) as H.
  cbv zeta in H. unfold times_out, WaitForEvent, pending in *.
  destruct (queue h); exact H.
Qed.

(** X10. A call of [WaitForEvent] returns EXIT and takes no event exactly
    when its wait times out; any other call returns the first pending
    event (queued, or pushed while the worker is blocked) and takes it.
    So [n] successive calls return the pending events in the order they
    were enqueued, one for each call that does not time out, with an EXIT
    at each call that does, and the events not returned are still
    pending, in order. *)
Theorem events_never_lost_nor_reordered (n : nat) :
  forall h : PairingHandlerLe,
    let calls := timed_out_calls n h in
    let taken := List.length (filter negb calls) in
    fst (WaitForEvents n h) = deliver calls (pending h)
    /\ pending (snd (WaitForEvents n h)) = skipn taken (pending h)
    /\ (taken <= List.length (pending h))%nat
    /\ List.length (fst (WaitForEvents n h)) = n.
Proof.
  induction n as [|n IH]; intros h; cbv zeta.
  - cbn. repeat split; lia.
  - cbn [WaitForEvents timed_out_calls]. unfold bind.
    pose proof (WaitForEvent_step h) as Hs.
    specialize (IH (snd (WaitForEvent h))). cbv zeta in IH.
    destruct (WaitForEvent h) as [e h1]. cbn [fst snd] in *.
    destruct IH as (He & Hp & Hl & Hn).
    destruct (WaitForEvents n h1) as [es h2]. cbn [fst snd ret] in *.
    destruct (times_out h).
    + destruct Hs as [-> Hs]. rewrite Hs in *.
      cbn [deliver filter negb]. rewrite <- He.
      repeat split; auto. cbn [List.length]. lia.
    + rewrite Hs. cbn [deliver filter negb List.length skipn].
      rewrite <- He. repeat split; auto; lia.
Qed.

(** *** When a waiter blocks *)

(** X11. A typed waiter that finds two events queued does not wait and
    takes exactly one event from the front of the queue, but for
    [WaitUiPasskey] whose first event is a valid PAIRING_CONFIRM, which
    takes two, and [WaitPairingConfirm] on an occupied cache, which takes
    none. *)
Theorem waiter_takes_at_most_two_events
  (w : Wait) (h : PairingHandlerLe) (e1 e2 : PairingEvent)
  (q : list PairingEvent) :
  queue h = e1 :: e2 :: q ->
  queue (snd (call w h))
  = match w, cached_pariring_confirm_view h, e1 with
    | Wait_PairingConfirm, Some _, _ => e1 :: e2 :: q
    | Wait_UiPasskey, _, PairingEvent_L2CAP p =>
        if valid_pairing_confirm p then q else e2 :: q
    | _, _, _ => e2 :: q
    end
  /\ wakeups (snd (call w h)) = wakeups h
  /\ blocked (snd (call w h)) = blocked h.
Proof.
  intros Hq.
  pose proof (WaitForEvent_front h e1 (e2 :: q) Hq) as Hw.
  assert (Hone : snd (call w h) = snd (WaitForEvent h) ->
            queue (snd (call w h)) = e2 :: q
            /\ wakeups (snd (call w h)) = wakeups h
            /\ blocked (snd (call w h)) = blocked h).
  { intros ->. rewrite Hw. simpl. auto. }
  destruct w.
  - destruct (cached_pariring_confirm_view h);
      apply Hone; apply call_state; discriminate.
  - unfold call, bind in *.
    destruct (cached_pariring_confirm_view h) as [pkt|] eqn:Hc.
    + rewrite (WaitPairingConfirm_cached h pkt Hc). simpl. auto.
    + apply Hone. rewrite (WaitPairingConfirm_empty h Hc).
      pose proof (WaitPacket_state PAIRING_CONFIRM h) as Hs.
      destruct (WaitPacket PAIRING_CONFIRM h). exact Hs.
  - destruct (cached_pariring_confirm_view h);
      apply Hone; apply call_state; discriminate.
  - destruct (cached_pariring_confirm_view h);
      apply Hone; apply call_state; discriminate.
  - unfold call, bind in *.
    assert (Hq' : queue (snd (let (a, h') := WaitUiPasskey h in
                              ret (of_ui a) h'))
                  = match e1 with
                    | PairingEvent_L2CAP p =>
                        if valid_pairing_confirm p then q else e2 :: q
                    | _ => e2 :: q
                    end
                  /\ wakeups (snd (let (a, h') := WaitUiPasskey h in
                                   ret (of_ui a) h')) = wakeups h
                  /\ blocked (snd (let (a, h') := WaitUiPasskey h in
                                   ret (of_ui a) h')) = blocked h).
    { destruct e1 as [|p|a u|ev].
      2: destruct (valid_pairing_confirm p) eqn:Hv.
      2: { rewrite (WaitUiPasskey_confirm h _ p Hw Hv). cbv zeta.
           cbn [set_cached snd queue wakeups blocked].
           match goal with
           | |- context [WaitForEvent ?x] =>
               rewrite (WaitForEvent_front x e2 q eq_refl)
           end.
           simpl. auto. }
      all: apply Hone;
        rewrite (WaitUiPasskey_other h _ _ Hw)
          by (intros p' Hp'; try discriminate; injection Hp' as <-;
              assumption);
        rewrite Hw; reflexivity. }
    destruct (cached_pariring_confirm_view h); exact Hq'.
  - destruct (cached_pariring_confirm_view h);
      apply Hone; apply call_state; discriminate.
  - destruct (cached_pariring_confirm_view h);
      apply Hone; apply call_state; discriminate.
Qed.



(** X14. A wait that times out returns EXIT even when a producer pushed an
    event just before the worker took the mutex again; the event is not
    lost: it stays queued and the next call returns it, without waiting. *)
Theorem timeout_wins_over_late_event
  (h : PairingHandlerLe) (w : Wakeup) (post : list Wakeup)
  (e : PairingEvent) (q : list PairingEvent) :
  queue h = [] ->
  wakeups h = w :: post ->
  status w = timeout ->
  pushed w = e :: q ->
  WaitForEvents 2 h =
    ([PairingEvent_EXIT; e],
     {| queue := q;
        cached_pariring_confirm_view := cached_pariring_confirm_view h;
        wakeups := post; blocked := blocked h + 30 |}).
Proof.
  intros Hq Hws Hst Hp. cbn [WaitForEvents]. unfold bind.
  unfold WaitForEvent at 1. rewrite Hq, Hws. cbn [WaitForEvent_loop].
  unfold wait_for. rewrite Hst, Hp.
  match goal with
  | |- context [WaitForEvent ?x] =>
      rewrite (WaitForEvent_front x e q eq_refl)
  end.
  reflexivity.
Qed.

(** X15. An event pushed while the worker is blocked ends the wait, after
    any number of spurious wake-ups: the call returns the first event
    pushed and queues those pushed after it. *)
Theorem event_pushed_during_wait_is_returned
  (h : PairingHandlerLe) (pre : list Wakeup) (w : Wakeup)
  (post : list Wakeup) (e : PairingEvent) (q : list PairingEvent) :
  queue h = [] ->
  wakeups h = pre ++ w :: post ->
  forallb spurious pre = true ->
  status w = no_timeout ->
  pushed w = e :: q ->
  fst (WaitForEvent h) = e
  /\ queue (snd (WaitForEvent h)) = q
  /\ wakeups (snd (WaitForEvent h)) = post
  /\ cached_pariring_confirm_view (snd (WaitForEvent h))
     = cached_pariring_confirm_view h.
Proof.
  intros Hq Hws Hpre Hst Hp. unfold WaitForEvent. rewrite Hq, Hws.
  clear Hws. generalize (blocked h) as t.
  induction pre as [|s pre IH]; intros t; cbn [app WaitForEvent_loop].
  - unfold wait_for. rewrite Hst, Hp.
    destruct post; simpl; auto.
  - simpl in Hpre. apply andb_true_iff in Hpre. destruct Hpre as [Hs Hpre].
    unfold spurious in Hs. unfold wait_for.
    destruct (status s); [|discriminate].
    destruct (pushed s); [|discriminate].
    apply IH. exact Hpre.
Qed.

(** *** From a producer to a waiter *)

(** X16. What the UI hands to [OnUiAction] is what the UI waiter of that
    action returns: on an empty queue the waiter returns the event with
    the action and the value given, without waiting, and the handler is
    again as it was. *)
Theorem OnUiAction_then_wait
  (h : PairingHandlerLe) (ui_action : UI_ACTION_TYPE) (ui_value : N) :
  queue h = [] ->
  match ui_action with
  | PAIRING_ACCEPTED => WaitUiPairingAccept
  | CONFIRM_YESNO => WaitUiConfirmYesNo
  | PASSKEY => WaitUiPasskey
  end (OnUiAction ui_action ui_value h)
  = (Some (PairingEvent_UI ui_action ui_value), h).
Proof.
  intros Hq. destruct h as [qu c ws t]. simpl in Hq. subst qu.
  destruct ui_action; destruct ws; reflexivity.
Qed.

(** X17. A valid PDU handed to [OnCommandView] is returned by the waiter of
    its opcode as the view over that PDU, when it parses as that view. *)
Theorem OnCommandView_then_WaitPacket
  (h : PairingHandlerLe) (packet : CommandView) :
  queue h = [] ->
  CommandView_IsValid packet = true ->
  View_IsValid (GetCode packet) packet = true ->
  WaitPacket (GetCode packet) (OnCommandView packet h)
  = (inl (Create (GetCode packet) packet), h).
Proof.
  intros Hq Hv Hp. destruct h as [qu c ws t]. simpl in Hq. subst qu.
  unfold WaitPacket, bind, OnCommandView, push. simpl.
  match goal with
  | |- context [WaitForEvent ?x] =>
      rewrite (WaitForEvent_front x (PairingEvent_L2CAP packet) [] eq_refl)
  end.
  simpl. rewrite Hv. simpl.
  replace (Code_eqb (GetCode packet) (GetCode packet)) with true
    by (symmetry; apply Code_eqb_eq; reflexivity).
  simpl. unfold IsValid. simpl. rewrite Hp. reflexivity.
Qed.

(** X18. An LE Long Term Key Request handed to [OnHciLeEvent] as an LE meta
    event view is queued as a plain HCI event, and
    [WaitLeLongTermKeyRequest] returns the request over the same LE meta
    event view. *)
Theorem OnHciLeEvent_then_WaitLeLongTermKeyRequest
  (h : PairingHandlerLe) (hci_event : LeMetaEventView) :
  queue h = [] ->
  EventView_IsValid (le_event_of hci_event) = true ->
  GetEventCode (le_event_of hci_event) = LE_META_EVENT ->
  LeMetaEventView_IsValid (le_event_of hci_event) = true ->
  GetSubeventCode (le_event_of hci_event) = LONG_TERM_KEY_REQUEST ->
  LeLongTermKeyRequestView_IsValid (le_event_of hci_event) = true ->
  queue (OnHciLeEvent hci_event h) = [PairingEvent_HCI (le_event_of hci_event)]
  /\ WaitLeLongTermKeyRequest (OnHciLeEvent hci_event h)
     = (inr (LeLongTermKeyRequestView_Create hci_event), h).
Proof.
  intros Hq Hv Hc Hm Hs Hl. destruct h as [qu c ws t]. simpl in Hq. subst qu.
  split; [reflexivity|].
  unfold WaitLeLongTermKeyRequest, bind, OnHciLeEvent, push. simpl.
  match goal with
  | |- context [WaitForEvent ?x] =>
      rewrite (WaitForEvent_front x
                 (PairingEvent_HCI (le_event_of hci_event)) [] eq_refl)
  end.
  simpl. rewrite Hv. simpl. rewrite Hc. simpl. rewrite Hm. simpl.
  rewrite Hs. simpl. rewrite Hl. simpl.
  destruct hci_event. reflexivity.
Qed.

(** *** The bit masks *)

Lemma land_lor_disjoint (field m1 m2 : N) :
  N.land m1 m2 = 0%N ->
  N.land (N.lor field m1) m2 = N.land field m2.
Proof.
  intros H. rewrite N.land_lor_distr_l, H. apply N.lor_0_r.
Qed.

Lemma land_ldiff_disjoint (field m1 m2 : N) :
  N.land m1 m2 = 0%N ->
  N.land (N.ldiff field m1) m2 = N.land field m2.
Proof.
  intros H. apply N.bits_inj. intros n.
  rewrite !N.land_spec, N.ldiff_spec.
  assert (Hn : N.testbit m1 n && N.testbit m2 n = false).
  { rewrite <- N.land_spec, H. apply N.bits_0. }
  destruct (N.testbit field n), (N.testbit m1 n), (N.testbit m2 n);
    simpl in *; congruence.
Qed.

(** X19. The masks of a field are one bit each and pairwise disjoint:
    setting or clearing the flag of one mask in a field never changes
    what the test with another mask of the same field reads. *)
Theorem masks_are_independent (masks : list N) (m1 m2 field : N) :
  masks = AuthReqMasks \/ masks = KeyMasks ->
  In m1 masks -> In m2 masks -> m1 <> m2 ->
  (exists k, (k < 8)%N /\ m1 = (2 ^ k)%N)
  /\ N.land (N.lor field m1) m2 = N.land field m2
  /\ N.land (N.ldiff field m1) m2 = N.land field m2.
Proof.
  intros Hm H1 H2 Hne.
  assert (Hbit : exists k, (k < 8)%N /\ m1 = (2 ^ k)%N).
  { destruct Hm; subst masks; simpl in H1;
      repeat (destruct H1 as [<-|H1];
              [ first [ exists 0%N; split; [lia|reflexivity]
                      | exists 1%N; split; [lia|reflexivity]
                      | exists 2%N; split; [lia|reflexivity]
                      | exists 3%N; split; [lia|reflexivity]
                      | exists 4%N; split; [lia|reflexivity]
                      | exists 5%N; split; [lia|reflexivity] ] | ]);
      contradiction. }
  assert (Hd : N.land m1 m2 = 0%N).
  { destruct Hm; subst masks; simpl in H1, H2;
      repeat (destruct H1 as [<-|H1]; [|]);
      try contradiction;
      repeat (destruct H2 as [<-|H2]; [|]);
      try contradiction; try reflexivity; congruence. }
  split; [exact Hbit|].
  split; [apply land_lor_disjoint | apply land_ldiff_disjoint]; exact Hd.
Qed.

(** X20. While an EXIT is queued no typed waiter blocks: the call returns
    without a wait, and it has failed or the EXIT is still queued for the
    next waiter. *)
Theorem waiter_never_blocks_before_exit (w : Wait) (h : PairingHandlerLe) :
  In PairingEvent_EXIT (queue h) ->
  wakeups (snd (call w h)) = wakeups h
  /\ blocked (snd (call w h)) = blocked h
  /\ (is_failure (fst (call w h)) = true
      \/ In PairingEvent_EXIT (queue (snd (call w h)))).
Proof.
  intros Hin.
  destruct (call_exit w h PairingEvent_EXIT Hin) as [_ Hor].
  assert (Hboth : wakeups (snd (call w h)) = wakeups h
                  /\ blocked (snd (call w h)) = blocked h);
    [|destruct Hboth; auto].
  destruct (queue h) as [|e1 q] eqn:Hq; [contradiction|].
  pose proof (WaitForEvent_front h e1 q Hq) as Hw.
  assert (Hone : snd (call w h) = snd (WaitForEvent h) ->
            wakeups (snd (call w h)) = wakeups h
            /\ blocked (snd (call w h)) = blocked h)
    by (intros ->; rewrite Hw; auto).
  destruct w; try (apply Hone; apply call_state; discriminate);
    unfold call, bind in *.
  - (* WaitPairingConfirm *)
    destruct (cached_pariring_confirm_view h) as [pkt|] eqn:Hc.
    + rewrite (WaitPairingConfirm_cached h pkt Hc). simpl. auto.
    + apply Hone. rewrite (WaitPairingConfirm_empty h Hc).
      pose proof (WaitPacket_state PAIRING_CONFIRM h) as Hs.
      destruct (WaitPacket PAIRING_CONFIRM h). exact Hs.
  - (* WaitUiPasskey *)
    destruct e1 as [|p|a u|ev].
    2: destruct (valid_pairing_confirm p) eqn:Hv.
    2: { destruct Hin as [Hin|Hin]; [discriminate|].
         destruct q as [|e2 q]; [contradiction|].
         rewrite (WaitUiPasskey_confirm h _ p Hw Hv). cbv zeta.
         cbn [set_cached snd queue wakeups blocked].
         match goal with
         | |- context [WaitForEvent ?x] =>
             rewrite (WaitForEvent_front x e2 q eq_refl)
         end.
         simpl. auto. }
    all: apply Hone;
      rewrite (WaitUiPasskey_other h _ _ Hw)
        by (intros p' Hp'; try discriminate; injection Hp' as <-; assumption);
      rewrite Hw; reflexivity.
Qed.

End Properties.

(** * The properties on the wire packet layer *)

#[local] Existing Instance Wire.layer.

Lemma C1_witness :
  let p := Wire.confirm_pdu x11 in
  let h := Wire.confirm_then_passkey in
  let h1 := {| queue := []; cached_pariring_confirm_view := None;
               wakeups := [ {| status := no_timeout; slept := 7;
                               pushed := [Wire.ui PASSKEY 123456] |} ];
               blocked := 5 |} in
  let ops := [Op_produce (@Call_OnCommandView Wire.layer (Wire.random_pdu x33))] in
  WaitForEvent h = (Wire.l2cap p, h1)
  /\ valid_pairing_confirm p = true
  /\ fst (WaitUiPasskey h) = Some (Wire.ui PASSKEY 123456)
  /\ cached_pariring_confirm_view (snd (WaitUiPasskey h)) = Some (Wire.confirm x11)
  /\ WaitPairingConfirm (exec_all ops (snd (WaitUiPasskey h)))
     = (inl (Wire.confirm x11),
        {| queue := [Wire.l2cap (Wire.random_pdu x33)];
           cached_pariring_confirm_view := None;
           wakeups := []; blocked := 12 |}).
Proof.
  cbv zeta.
  destruct (C1_early_confirm_cached_then_consumed (PL := Wire.layer)
              Wire.confirm_then_passkey
              {| queue := []; cached_pariring_confirm_view := None;
                 wakeups := [ {| status := no_timeout; slept := 7;
                                 pushed := [Wire.ui PASSKEY 123456] |} ];
                 blocked := 5 |}
              (Wire.confirm_pdu x11)
              [Op_produce (@Call_OnCommandView Wire.layer (Wire.random_pdu x33))]
              eq_refl eq_refl eq_refl) as (H1 & H2 & H3).
  split; [reflexivity|]. split; [reflexivity|].
  split; [rewrite H1; reflexivity|].
  split; [exact H2|]. rewrite H3. reflexivity.
Defined.

Lemma C9_witness :
  let h := Wire.holding x11 [Wire.l2cap (Wire.confirm_pdu x22)] in
  cached_pariring_confirm_view h = Some (Wire.confirm x11)
  /\ fst (WaitPairingConfirm h) = inl (Wire.confirm x11)
  /\ queue (snd (WaitPairingConfirm h)) = [Wire.l2cap (Wire.confirm_pdu x22)]
  /\ cached_pariring_confirm_view (snd (WaitPairingConfirm h)) = None.
Proof.
  cbv zeta.
  destruct (C9_cached_confirm_consumes_no_event (PL := Wire.layer)
              (Wire.holding x11 [Wire.l2cap (Wire.confirm_pdu x22)])
              (Wire.confirm x11) eq_refl)
    as (H1 & H2 & _ & _ & H5).
  split; [reflexivity|]. split; [exact H1|]. split; [exact H2|exact H5].
Defined.

Lemma C8_witness :
  let p := Wire.confirm_pdu x11 in
  let p2 := Wire.confirm_pdu x22 in
  let h := Wire.handler [Wire.l2cap p; Wire.l2cap p2;
                         Wire.ui PASSKEY 123456] in
  valid_pairing_confirm p = true
  /\ valid_pairing_confirm p2 = true
  /\ WaitUiPasskey h
     = (None, Wire.holding x11 [Wire.ui PASSKEY 123456]).
Proof.
  cbv zeta. split; [reflexivity|]. split; [reflexivity|].
  apply (C8_passkey_wait_reissued_once (PL := Wire.layer)
           (Wire.handler [Wire.l2cap (Wire.confirm_pdu x11);
                          Wire.l2cap (Wire.confirm_pdu x22);
                          Wire.ui PASSKEY 123456])
           (Wire.handler [Wire.l2cap (Wire.confirm_pdu x22);
                          Wire.ui PASSKEY 123456])
           (Wire.holding x11 [Wire.ui PASSKEY 123456])
           (Wire.confirm_pdu x11)
           (Wire.l2cap (Wire.confirm_pdu x22))
           eq_refl eq_refl eq_refl eq_refl).
Defined.

Lemma C10_witness :
  let h := Wire.holding x11 [Wire.l2cap (Wire.confirm_pdu x22);
                             Wire.ui PASSKEY 123456] in
  held h = [Wire.confirm x11]
  /\ held (snd (WaitUiPasskey h)) = [Wire.confirm x22].
Proof.
  cbv zeta. split; [reflexivity|].
  apply (C10_cache_holds_at_most_one (PL := Wire.layer)
           (Wire.holding x11 [Wire.l2cap (Wire.confirm_pdu x22);
                              Wire.ui PASSKEY 123456])
           (Wire.holding x11 [Wire.ui PASSKEY 123456])
           (Wire.confirm_pdu x22)
           (Wire.confirm x11)
           eq_refl eq_refl eq_refl).
Defined.

Lemma C3_witness :
  let p := Wire.failed_pdu x04 in
  let h := Wire.handler [Wire.l2cap p] in
  PAIRING_RANDOM <> PAIRING_FAILED
  /\ GetCode p = PAIRING_FAILED
  /\ WaitPacket PAIRING_RANDOM h =
       (inr (PairingFailure_reason
               "Was expecting PAIRING_RANDOM, but received PAIRING_FAILED instead"
               x04), Wire.handler []).
Proof.
  cbv zeta. split; [discriminate|]. split; [reflexivity|].
  apply (C3_pairing_failed_reason_surfaced (PL := Wire.layer) PAIRING_RANDOM
           (Wire.handler [Wire.l2cap (Wire.failed_pdu x04)])
           (Wire.handler []) (Wire.failed_pdu x04)
           ltac:(discriminate) eq_refl eq_refl eq_refl eq_refl).
Defined.

Lemma C7_witness :
  let h := Wire.handler [Wire.hci Wire.encryption_change] in
  WaitForEvent h = (Wire.hci Wire.encryption_change, Wire.handler [])
  /\ fst (WaitEncryptionChanged h)
     = EncryptionChanged_change (EncryptionChangeView_Create Wire.encryption_change).
Proof.
  cbv zeta. split; [reflexivity|].
  apply (C7_encryption_changed_classification (PL := Wire.layer)
           (Wire.handler [Wire.hci Wire.encryption_change])
           (Wire.handler []) (Wire.hci Wire.encryption_change) eq_refl).
  exists Wire.encryption_change. repeat split.
Defined.



(** C4. A call of [WaitForEvent] on an empty queue is meant to block for
    at most [SMP_TIMEOUT] = 30 seconds and to return EXIT when that time
    elapses; in a silent process it does, after exactly 30 seconds.  But a
    worker woken spuriously after 29 seconds finds the queue empty, goes
    round the loop and waits 30 seconds anew: the single call returns EXIT
    only after 59 seconds. *)
Theorem C4_spurious_wake_up_restarts_timeout :
  SMP_TIMEOUT = 30%N
  /\ WaitForEvent (Wire.handler []) =
       (Wire.exit,
        {| queue := []; cached_pariring_confirm_view := None;
           wakeups := []; blocked := 30 |})
  /\ queue Wire.woken_spuriously = []
  /\ map spurious (wakeups Wire.woken_spuriously) = [true]
  /\ map (wait_for SMP_TIMEOUT) (wakeups Wire.woken_spuriously)
     = [(no_timeout, 29%N)]
  /\ blocked Wire.woken_spuriously = 0%N
  /\ WaitForEvent Wire.woken_spuriously =
       (Wire.exit,
        {| queue := []; cached_pariring_confirm_view := None;
           wakeups := []; blocked := 59 |})
  /\ ~ (blocked (snd (WaitForEvent Wire.woken_spuriously))
        <= blocked Wire.woken_spuriously + SMP_TIMEOUT)%N.
Proof.
  repeat split. vm_compute. intros H. apply H. reflexivity.
Qed.

(** Three producers, then three calls: the events in the order pushed. *)
Example fifo_example :
  let ps := [@Call_OnCommandView Wire.layer (Wire.confirm_pdu x11);
             Call_OnUiAction PASSKEY 123456;
             Call_SendExitSignal] in
  WaitForEvents 3 (produce_all ps (Wire.handler []))
  = ([Wire.l2cap (Wire.confirm_pdu x11); Wire.ui PASSKEY 123456; Wire.exit],
     Wire.handler []).
Proof. reflexivity. Qed.

(** A worker that waits for the passkey and then for the confirm, on a
    handler that already holds the passkey: one or two exit signals, the
    worker aborts in [WaitPairingConfirm] either way. *)
Example exit_twice_example :
  let prog := Await Wait_UiPasskey (fun _ =>
              Await Wait_PairingConfirm (fun _ => Finished tt)) in
  let h := Wire.handler [Wire.ui PASSKEY 123456] in
  fst (PairingMain prog (SendExitSignal h))
    = fst (PairingMain prog (SendExitSignal (SendExitSignal h)))
  /\ queue (snd (PairingMain prog (SendExitSignal h))) = []
  /\ queue (snd (PairingMain prog (SendExitSignal (SendExitSignal h))))
     = [Wire.exit].
Proof. cbv zeta. repeat split. Qed.

(** ** Further properties on the wire packet layer *)

Lemma WaitPacket_returns_view_witness :
  let p := Wire.random_pdu x22 in
  let h := Wire.handler [Wire.l2cap p] in
  WaitForEvent h = (Wire.l2cap p, Wire.handler [])
  /\ fst (WaitPacket PAIRING_RANDOM h) = inl (@Create Wire.layer PAIRING_RANDOM p).
Proof.
  cbv zeta. split; [reflexivity|].
  apply (WaitPacket_returns_view (PL := Wire.layer) PAIRING_RANDOM
           (Wire.handler [Wire.l2cap (Wire.random_pdu x22)])
           (Wire.handler []) (Wire.l2cap (Wire.random_pdu x22))
           (@Create Wire.layer PAIRING_RANDOM (Wire.random_pdu x22)) eq_refl).
  exists (Wire.random_pdu x22). repeat split.
Defined.

Lemma WaitPacket_reason_only_from_peer_witness :
  let p := Wire.failed_pdu x04 in
  let h := Wire.handler [Wire.l2cap p] in
  WaitForEvent h = (Wire.l2cap p, Wire.handler [])
  /\ exists f, fst (WaitPacket PAIRING_RANDOM h) = inr f
       /\ reason_of f = Some x04.
Proof.
  cbv zeta. split; [reflexivity|].
  apply (WaitPacket_reason_only_from_peer (PL := Wire.layer) PAIRING_RANDOM
           (Wire.handler [Wire.l2cap (Wire.failed_pdu x04)])
           (Wire.handler []) (Wire.l2cap (Wire.failed_pdu x04)) x04 eq_refl).
  exists (Wire.failed_pdu x04). repeat split. discriminate.
Defined.

Lemma WaitPacket_reports_received_code_witness :
  let p := Wire.confirm_pdu x11 in
  let h := Wire.handler [Wire.l2cap p] in
  WaitForEvent h = (Wire.l2cap p, Wire.handler [])
  /\ exists message,
       fst (WaitPacket PAIRING_RANDOM h)
       = inr (PairingFailure_received message PAIRING_CONFIRM).
Proof.
  cbv zeta. split; [reflexivity|].
  apply (WaitPacket_reports_received_code (PL := Wire.layer)
           PAIRING_RANDOM PAIRING_CONFIRM
           (Wire.handler [Wire.l2cap (Wire.confirm_pdu x11)])
           (Wire.handler []) (Wire.l2cap (Wire.confirm_pdu x11)) eq_refl).
  exists (Wire.confirm_pdu x11). repeat split; discriminate.
Defined.

Lemma WaitLeLongTermKeyRequest_returns_request_witness :
  let h := Wire.handler [Wire.hci Wire.ltk_request] in
  WaitForEvent h = (Wire.hci Wire.ltk_request, Wire.handler [])
  /\ fst (WaitLeLongTermKeyRequest h)
     = inr (LeLongTermKeyRequestView_Create Wire.ltk_request_le).
Proof.
  cbv zeta. split; [reflexivity|].
  apply (WaitLeLongTermKeyRequest_returns_request (PL := Wire.layer)
           (Wire.handler [Wire.hci Wire.ltk_request])
           (Wire.handler []) (Wire.hci Wire.ltk_request)
           (LeLongTermKeyRequestView_Create Wire.ltk_request_le) eq_refl).
  exists Wire.ltk_request. repeat split.
Defined.

Lemma WaitUi_returns_the_event_witness :
  let h := Wire.handler [Wire.ui CONFIRM_YESNO 1] in
  WaitForEvent h = (Wire.ui CONFIRM_YESNO 1, Wire.handler [])
  /\ fst (WaitUiConfirmYesNo h) = Some (Wire.ui CONFIRM_YESNO 1)
  /\ fst (WaitUiPairingAccept h) <> Some (Wire.ui CONFIRM_YESNO 1).
Proof.
  cbv zeta.
  destruct (WaitUi_returns_the_event (PL := Wire.layer)
              (Wire.handler [Wire.ui CONFIRM_YESNO 1]) (Wire.handler [])
              (Wire.ui CONFIRM_YESNO 1) (Wire.ui CONFIRM_YESNO 1) eq_refl)
    as (Ha & Hc & _).
  split; [reflexivity|]. split.
  - apply Hc. split; [reflexivity|]. exists 1%N. reflexivity.
  - intros H. apply Ha in H. destruct H as [_ [v Hv]]. discriminate.
Defined.

Lemma WaitUiPasskey_returns_the_passkey_witness :
  let h := Wire.confirm_then_passkey in
  fst (WaitForEvent h) = Wire.l2cap (Wire.confirm_pdu x11)
  /\ fst (WaitUiPasskey h) = Some (Wire.ui PASSKEY 123456).
Proof.
  cbv zeta. split; [reflexivity|].
  apply (WaitUiPasskey_returns_the_passkey (PL := Wire.layer)
           Wire.confirm_then_passkey
           {| queue := []; cached_pariring_confirm_view := None;
              wakeups := [ {| status := no_timeout; slept := 7;
                              pushed := [Wire.ui PASSKEY 123456] |} ];
              blocked := 5 |}
           (Wire.l2cap (Wire.confirm_pdu x11)) (Wire.ui PASSKEY 123456)
           eq_refl).
  right. exists (Wire.confirm_pdu x11), 123456%N. repeat split.
Defined.

Lemma cache_survives_other_operations_witness :
  let ops := [Op_produce (@Call_OnCommandView Wire.layer (Wire.random_pdu x33));
              Op_call (Wait_Packet PAIRING_RANDOM);
              Op_WaitForEvent;
              Op_call Wait_EncryptionChanged] in
  let h := Wire.holding x11 [Wire.ui PASSKEY 123456] in
  forallb (fun op => negb (names_cache op)) ops = true
  /\ cached_pariring_confirm_view (exec_all ops h) = Some (Wire.confirm x11).
Proof.
  cbv zeta. split; [reflexivity|].
  apply (cache_survives_other_operations (PL := Wire.layer)
           [Op_produce (@Call_OnCommandView Wire.layer (Wire.random_pdu x33));
            Op_call (Wait_Packet PAIRING_RANDOM);
            Op_WaitForEvent;
            Op_call Wait_EncryptionChanged]
           (Wire.holding x11 [Wire.ui PASSKEY 123456]) eq_refl).
Defined.

Lemma waiter_takes_at_most_two_events_witness :
  let h := Wire.handler [Wire.l2cap (Wire.confirm_pdu x11);
                         Wire.ui PASSKEY 123456; Wire.exit] in
  queue h = [Wire.l2cap (Wire.confirm_pdu x11); Wire.ui PASSKEY 123456; Wire.exit]
  /\ queue (snd (call Wait_UiPasskey h)) = [Wire.exit]
  /\ queue (snd (call Wait_UiPairingAccept h))
     = [Wire.ui PASSKEY 123456; Wire.exit]
  /\ wakeups (snd (call Wait_UiPasskey h)) = wakeups h
  /\ blocked (snd (call Wait_UiPasskey h)) = blocked h.
Proof.
  cbv zeta. split; [reflexivity|].
  destruct (waiter_takes_at_most_two_events (PL := Wire.layer) Wait_UiPasskey
              (Wire.handler [Wire.l2cap (Wire.confirm_pdu x11);
                             Wire.ui PASSKEY 123456; Wire.exit])
              (Wire.l2cap (Wire.confirm_pdu x11)) (Wire.ui PASSKEY 123456)
              [Wire.exit] eq_refl) as (H1 & H2 & H3).
  destruct (waiter_takes_at_most_two_events (PL := Wire.layer)
              Wait_UiPairingAccept
              (Wire.handler [Wire.l2cap (Wire.confirm_pdu x11);
                             Wire.ui PASSKEY 123456; Wire.exit])
              (Wire.l2cap (Wire.confirm_pdu x11)) (Wire.ui PASSKEY 123456)
              [Wire.exit] eq_refl) as (H4 & _).
  split; [exact H1|]. split; [exact H4|]. split; [exact H2|exact H3].
Defined.



Lemma timeout_wins_over_late_event_witness :
  WaitForEvents 2 Wire.passkey_too_late
  = ([Wire.exit; Wire.ui PASSKEY 123456],
     {| queue := []; cached_pariring_confirm_view := None;
        wakeups := []; blocked := 30 |}).
Proof.
  apply (timeout_wins_over_late_event (PL := Wire.layer)
           Wire.passkey_too_late
           {| status := timeout; slept := 30;
              pushed := [Wire.ui PASSKEY 123456] |}
           [] (Wire.ui PASSKEY 123456) [] eq_refl eq_refl eq_refl eq_refl).
Defined.

Lemma event_pushed_during_wait_is_returned_witness :
  fst (WaitForEvent Wire.woken_twice) = Wire.l2cap (Wire.random_pdu x22)
  /\ queue (snd (WaitForEvent Wire.woken_twice)) = [Wire.exit]
  /\ wakeups (snd (WaitForEvent Wire.woken_twice)) = []
  /\ cached_pariring_confirm_view (snd (WaitForEvent Wire.woken_twice)) = None.
Proof.
  apply (event_pushed_during_wait_is_returned (PL := Wire.layer)
           Wire.woken_twice
           [ {| status := no_timeout; slept := 29; pushed := [] |} ]
           {| status := no_timeout; slept := 5;
              pushed := [Wire.l2cap (Wire.random_pdu x22); Wire.exit] |}
           [] (Wire.l2cap (Wire.random_pdu x22)) [Wire.exit]
           eq_refl eq_refl eq_refl eq_refl eq_refl).
Defined.

Lemma OnUiAction_then_wait_witness :
  WaitUiPasskey (OnUiAction PASSKEY 123456 (Wire.handler []))
  = (Some (Wire.ui PASSKEY 123456), Wire.handler []).
Proof.
  apply (OnUiAction_then_wait (PL := Wire.layer) (Wire.handler [])
           PASSKEY 123456 eq_refl).
Defined.

Lemma OnCommandView_then_WaitPacket_witness :
  let p := Wire.random_pdu x22 in
  CommandView_IsValid p = true
  /\ GetCode p = PAIRING_RANDOM
  /\ WaitPacket (GetCode p) (OnCommandView p (Wire.handler []))
     = (inl (@Create Wire.layer (GetCode p) p), Wire.handler []).
Proof.
  cbv zeta. split; [reflexivity|]. split; [reflexivity|].
  apply (OnCommandView_then_WaitPacket (PL := Wire.layer) (Wire.handler [])
           (Wire.random_pdu x22) eq_refl eq_refl eq_refl).
Defined.

Lemma OnHciLeEvent_then_WaitLeLongTermKeyRequest_witness :
  WaitLeLongTermKeyRequest (OnHciLeEvent Wire.ltk_request_le (Wire.handler []))
  = (inr (LeLongTermKeyRequestView_Create Wire.ltk_request_le),
     Wire.handler []).
Proof.
  apply (OnHciLeEvent_then_WaitLeLongTermKeyRequest (PL := Wire.layer)
           (Wire.handler []) Wire.ltk_request_le
           eq_refl eq_refl eq_refl eq_refl eq_refl eq_refl).
Defined.

Lemma masks_are_independent_witness :
  In AuthReqMaskSc AuthReqMasks /\ In AuthReqMaskMitm AuthReqMasks
  /\ AuthReqMaskSc <> AuthReqMaskMitm
  /\ N.land (N.lor 0x05 AuthReqMaskSc) AuthReqMaskMitm
     = N.land 0x05 AuthReqMaskMitm
  /\ N.land (N.ldiff 0x0D AuthReqMaskSc) AuthReqMaskMitm
     = N.land 0x0D AuthReqMaskMitm.
Proof.
  assert (H1 : In AuthReqMaskSc AuthReqMasks) by (simpl; auto).
  assert (H2 : In AuthReqMaskMitm AuthReqMasks) by (simpl; auto).
  assert (Hne : AuthReqMaskSc <> AuthReqMaskMitm) by discriminate.
  split; [exact H1|]. split; [exact H2|]. split; [exact Hne|].
  split.
  - apply (masks_are_independent AuthReqMasks AuthReqMaskSc AuthReqMaskMitm
             0x05 (or_introl eq_refl) H1 H2 Hne).
  - apply (masks_are_independent AuthReqMasks AuthReqMaskSc AuthReqMaskMitm
             0x0D (or_introl eq_refl) H1 H2 Hne).
Defined.

Lemma waiter_never_blocks_before_exit_witness :
  let h := Wire.holding x11 [Wire.exit] in
  In Wire.exit (queue h)
  /\ blocked (snd (call Wait_PairingConfirm h)) = blocked h
  /\ is_failure (fst (call Wait_PairingConfirm h)) = false
  /\ In Wire.exit (queue (snd (call Wait_PairingConfirm h))).
Proof.
  cbv zeta.
  assert (Hin : In Wire.exit (queue (Wire.holding x11 [Wire.exit])))
    by (left; reflexivity).
  destruct (waiter_never_blocks_before_exit (PL := Wire.layer)
              Wait_PairingConfirm (Wire.holding x11 [Wire.exit]) Hin)
    as (_ & Hb & [Hf|Hq]).
  - discriminate.
  - split; [exact Hin|]. split; [exact Hb|]. split; [reflexivity|exact Hq].
Defined.

(** A worker woken spuriously, then by a PAIRING_RANDOM and an exit
    signal: three calls return the packet, the exit signal that was
    enqueued, and the EXIT of the third call, whose wait times out. *)
Example deliver_example :
  timed_out_calls 3 Wire.woken_twice = [false; false; true]
  /\ fst (WaitForEvents 3 Wire.woken_twice)
     = [Wire.l2cap (Wire.random_pdu x22); Wire.exit; Wire.exit]
  /\ pending (snd (WaitForEvents 3 Wire.woken_twice)) = [].
Proof. repeat split. Qed.
